(** * Ride Now: the ride-request flow of [src/app.js]

    The file embeds the two programs of [src/app.js]:

    - the React component [App] (lines 1-167), whose form handler
      [handleRequestRide] works on six [useState] cells;
    - the Express / Socket.IO / Mongoose backend (lines 168-374), whose
      [POST /api/rides/request] handler creates a ride, arms a 3 second
      timer, and in the timer callback matches a mock driver, saves the
      ride, emits [rideUpdate] to the rider's room and only then answers
      the HTTP request.

    The backend is an event loop.  Every [await] and the [setTimeout] cut a
    handler into pieces; a piece that waits is a [Task], and the
    environment decides when it is resumed and with which outcome (whether
    a [save] resolves or rejects, what [Math.random] returns, how much
    time has passed).  [step] runs one piece to its next suspension. *)

From Stdlib Require Import ZArith QArith Qround Lia Lqa String Ascii.
From stdpp Require Import gmap strings list fin_maps pretty.

(** ** JavaScript values and numbers *)

Module JS.

(** A value as [express.json()] or a Socket.IO packet hands it to the code:
    a field that is absent reads [undefined].  A number is kept by its
    value.  An object is kept as [VObj]: the program reads nothing of it.
    Rooms are named by one value here; the lists of rooms that Socket.IO
    also accepts in an array are left out. *)
Inductive JsVal :=
  | VUndefined
  | VNull
  | VBool (b : bool)
  | VNum (q : Q)
  | VStr (s : string)
  | VObj.

(** [!v] is [negb (truthy v)]: [undefined], [null], [false], [0] and the
    empty string are falsy, everything else is truthy. *)
Definition truthy (v : JsVal) : bool :=
  match v with
  | VUndefined | VNull => false
  | VBool b => b
  | VNum q => negb (Qeq_bool q 0)
  | VStr s => negb (String.eqb s EmptyString)
  | VObj => true
  end.

(** Key comparison of a JavaScript [Map] (SameValueZero).  Two objects
    that come out of two different messages are never the same key. *)
Definition sameValueZero (a b : JsVal) : bool :=
  match a, b with
  | VUndefined, VUndefined => true
  | VNull, VNull => true
  | VBool x, VBool y => Bool.eqb x y
  | VNum x, VNum y => Qeq_bool x y
  | VStr x, VStr y => String.eqb x y
  | _, _ => false
  end.

(** Truthiness of a string, as [!pickupLocation] tests it in the form. *)
Definition truthyStr (s : string) : bool := negb (String.eqb s EmptyString).

End JS.

(** ** Arithmetic of [Number]

    A [Number] is a binary64 float.  The finite ones are rationals, so a
    [Number] is kept as the [Q] it denotes and every operation rounds its
    exact result to the nearest binary64 value, ties to even ([fl]).  The
    magnitudes of this program stay far below [2^1024], where rounding
    never overflows. *)

Module Number.

Local Open Scope Z_scope.

(** Nearest integer to [a / b] for [0 < b], ties to the even one. *)
Definition rne (a b : Z) : Z :=
  let k := a / b in
  let r2 := 2 * (a mod b) in
  if r2 <? b then k
  else if b <? r2 then k + 1
  else if Z.even k then k else k + 1.

(** [2^e <= n / d], for [0 < d]. *)
Definition ge_pow2 (n d e : Z) : bool :=
  if 0 <=? e then d * 2 ^ e <=? n else d <=? n * 2 ^ (- e).

(** The binade of [n / d]: the [e] with [2^e <= n/d < 2^(e+1)]. *)
Definition binade (n d : Z) : Z :=
  let e0 := Z.log2 n - Z.log2 d in
  if ge_pow2 n d e0 then e0 else e0 - 1.

(** [m * 2^s] as a rational. *)
Definition scale (m s : Z) : Q :=
  if 0 <=? s then inject_Z (m * 2 ^ s) else Qmake m (Z.to_pos (2 ^ (- s))).

(** Rounding of the positive rational [n / d]: 53 significant bits in its
    binade, and the fixed spacing [2^-1074] below [2^-1022]. *)
Definition round_pos (n d : Z) : Q :=
  let s := Z.max (binade n d) (-1022) - 52 in
  let m := if 0 <=? s then rne n (d * 2 ^ s) else rne (n * 2 ^ (- s)) d in
  scale m s.

Definition fl (q : Q) : Q :=
  match Qnum q with
  | Z0 => 0%Q
  | Zpos n => round_pos (Zpos n) (Zpos (Qden q))
  | Zneg n => Qopp (round_pos (Zpos n) (Zpos (Qden q)))
  end.

(** [x * y] and [x + y] on numbers. *)
Definition mul (x y : Q) : Q := fl (x * y).
Definition add (x y : Q) : Q := fl (x + y).

(** [Math.floor(x)]. *)
Definition floor (x : Q) : Z := Qfloor x.

(** [x.toFixed(2)]: the integer [n] for which [n / 100 - x] is closest to
    zero, the larger one of two; the result is the string that writes
    [n / 100] with two decimals, kept here as [n].  A negative [x] is
    formatted from [-x] with a minus sign. *)
Definition toFixed2 (x : Q) : Z :=
  if Qle_bool 0 x then Qfloor (x * 100 + (1 # 2))%Q
  else - Qfloor (- x * 100 + (1 # 2))%Q.

(** [parseFloat] of a string written by [toFixed(2)]: the number nearest
    to [n / 100]. *)
Definition parseFloat2 (n : Z) : Q := fl (Qmake n 100).

End Number.


(** ** The backend (lines 168-374) *)

Module Backend.

Import JS.

(** A [mongoose.Types.ObjectId] is opaque to the program: it is only
    generated, stored, sent and looked up.  The generator of the [bson]
    package is not part of this repository; it is taken by its contract,
    a source of identifiers that never repeats, as a counter. *)
Abbreviation ObjectId := N.

(** A [Date], in milliseconds. *)
Abbreviation Date := Z.

(** The [enum] of [rideSchema.status] (line 217). *)
Inductive Status :=
  | pending | searching | accepted | on_the_way | completed | cancelled.

#[global] Instance Status_eq_dec : EqDecision Status.
Proof. solve_decision. Defined.

(** A document of [rideSchema] (lines 212-223).  The three fields that
    come from the request body hold what the handler put there; the casts
    and validators of Mongoose run inside [save], whose outcome the
    environment gives. *)
Record Ride := mkRide {
  _id : ObjectId;
  riderId : JsVal;
  driverId : option ObjectId;
  pickupLocation : JsVal;
  destination : JsVal;
  status : Status;
  fare : option Q;
  estimatedArrivalTime : option string;
  pickupTime : option Date;
  createdAt : Date;
  updatedAt : Date
}.

(** [new Ride({ riderId, pickupLocation, destination, status: 'searching' })]
    (lines 273-278): the schema defaults fill [_id], [createdAt] and
    [updatedAt].  The two defaults call [Date.now] one after the other
    (lines 221-222); both calls fall in one turn of the event loop, in
    which the clock of the model stands still, so both read [now].  No
    property below rests on the two readings being equal. *)
Definition newRide (id : ObjectId) (now : Date)
    (rider pickup dest : JsVal) : Ride :=
  {| _id := id; riderId := rider; driverId := None;
     pickupLocation := pickup; destination := dest;
     status := searching;
     fare := None; estimatedArrivalTime := None; pickupTime := None;
     createdAt := now; updatedAt := now |}.

(** Assignments to the fields of a document. *)
Definition set_driverId (v : ObjectId) (r : Ride) : Ride :=
  mkRide (_id r) (riderId r) (Some v) (pickupLocation r) (destination r)
    (status r) (fare r) (estimatedArrivalTime r) (pickupTime r)
    (createdAt r) (updatedAt r).
Definition set_fare (v : Q) (r : Ride) : Ride :=
  mkRide (_id r) (riderId r) (driverId r) (pickupLocation r) (destination r)
    (status r) (Some v) (estimatedArrivalTime r) (pickupTime r)
    (createdAt r) (updatedAt r).
Definition set_estimatedArrivalTime (v : string) (r : Ride) : Ride :=
  mkRide (_id r) (riderId r) (driverId r) (pickupLocation r) (destination r)
    (status r) (fare r) (Some v) (pickupTime r)
    (createdAt r) (updatedAt r).
Definition set_status (v : Status) (r : Ride) : Ride :=
  mkRide (_id r) (riderId r) (driverId r) (pickupLocation r) (destination r)
    v (fare r) (estimatedArrivalTime r) (pickupTime r)
    (createdAt r) (updatedAt r).
Definition set_pickupTime (v : Date) (r : Ride) : Ride :=
  mkRide (_id r) (riderId r) (driverId r) (pickupLocation r) (destination r)
    (status r) (fare r) (estimatedArrivalTime r) (Some v)
    (createdAt r) (updatedAt r).

(** *** The simulated match (lines 284-290) *)

Record MockDriver := mkDriver {
  drv_id : ObjectId;
  name : string;
  vehicle : string
}.

Definition mockDriver (id : ObjectId) : MockDriver :=
  {| drv_id := id; name := "Alice Smith";
     vehicle := "Toyota Camry (ABC-123)" |}.

(** [(Math.random() * 20 + 10).toFixed(2)], for the draw [r]. *)
Definition fareText (r : Q) : Z :=
  Number.toFixed2 (Number.add (Number.mul r 20) 10).

(** [Math.floor(Math.random() * 5) + 2], for the draw [r]. *)
Definition etaMinutes (r : Q) : Z :=
  (Number.floor (Number.mul r 5) + 2)%Z.

(** The template literal of line 290. *)
Definition etaText (r : Q) : string := pretty (etaMinutes r) +:+ " minutes".

(** Lines 293-297: the update of the document in the timer callback. *)
Definition applyMatch (newRide : Ride) (driver : ObjectId) (fare : Z)
    (eta : string) (now : Date) : Ride :=
  set_pickupTime now
    (set_status accepted
      (set_estimatedArrivalTime eta
        (set_fare (Number.parseFloat2 fare)
          (set_driverId driver newRide)))).

(** *** What the server sends *)

(** [d.toLocaleTimeString()]: the text depends on the locale of the
    host, so it is kept as the date it renders. *)
Inductive TimeText := LocaleTimeString (d : Date).

(** The payload of the [rideUpdate] event (lines 301-310). *)
Record RideUpdate := mkRideUpdate {
  ev_rideId : ObjectId;
  ev_status : Status;
  ev_driverName : string;
  ev_driverVehicle : string;
  ev_estimatedArrivalTime : option string;
  ev_fare : option Q;
  ev_pickupTime : option TimeText;
  ev_message : string
}.

Definition rideUpdate (newRide : Ride) (mockDriver : MockDriver) : RideUpdate :=
  {| ev_rideId := _id newRide;
     ev_status := status newRide;
     ev_driverName := name mockDriver;
     ev_driverVehicle := vehicle mockDriver;
     ev_estimatedArrivalTime := estimatedArrivalTime newRide;
     ev_fare := fare newRide;
     ev_pickupTime := LocaleTimeString <$> pickupTime newRide;
     ev_message := "Driver found!" |}.

(** The JSON body of the answer of lines 312-321. *)
Record RideAnswer := mkRideAnswer {
  ans_message : string;
  ans_rideId : ObjectId;
  ans_status : Status;
  ans_driverName : string;
  ans_driverVehicle : string;
  ans_estimatedArrivalTime : option string;
  ans_fare : option Q;
  ans_pickupTime : option TimeText
}.

Definition rideAnswer (newRide : Ride) (mockDriver : MockDriver) : RideAnswer :=
  {| ans_message := "Ride request received and driver searching initiated.";
     ans_rideId := _id newRide;
     ans_status := status newRide;
     ans_driverName := name mockDriver;
     ans_driverVehicle := vehicle mockDriver;
     ans_estimatedArrivalTime := estimatedArrivalTime newRide;
     ans_fare := fare newRide;
     ans_pickupTime := LocaleTimeString <$> pickupTime newRide |}.

(** A document of [userSchema] (lines 202-208), as [populate] puts it in
    the place of a reference.  The users collection belongs to the
    registration endpoints. *)
Record User := mkUser {
  user_id : ObjectId;
  username : string;
  password : string;
  email : string;
  role : string;
  user_createdAt : Date
}.

Inductive Body :=
  | JMessage (message : string)
  | JError (message error : string)
  | JRideAnswer (a : RideAnswer)
  | JRide (ride : Ride) (rider driver : option User).

(** [res.status(code).json(body)]. *)
Record Response := mkResponse { code : Z; body : Body }.

(** *** The event loop *)

(** How an awaited [save()] settles. *)
Inductive SaveOutcome := Saved | SaveRejected (message : string).

(** How the awaited query of line 334 settles; when it resolves, what the
    two [populate] calls found for [riderId] and [driverId]. *)
Inductive FindOutcome :=
  | FindResolved (rider driver : option User)
  | FindRejected (message : string).

(** A suspended piece of the handler of [POST /api/rides/request], with
    the variables its closure holds: [riderId] of the request body and the
    document [newRide]. *)
Inductive Task :=
  | AwaitCreate (rider : JsVal) (doc : Ride)
      (* line 279: await newRide.save() *)
  | AwaitTimer (rider : JsVal) (doc : Ride) (due : Date)
      (* lines 283-323: setTimeout(..., 3000) *)
  | AwaitMatchSave (rider : JsVal) (doc : Ride) (driver : MockDriver).
      (* line 298: await newRide.save() *)

Definition doc_of (t : Task) : Ride :=
  match t with
  | AwaitCreate _ d | AwaitTimer _ d _ | AwaitMatchSave _ d _ => d
  end.

(** What reaches the server.  Requests are numbered in the order of their
    arrival; a socket is named by its [socket.id]. *)
Inductive Input :=
  | PostRideRequest (rider pickup dest : JsVal)
  | SaveSettles (q : nat) (o : SaveOutcome)
  | TimerFires (q : nat) (r1 r2 : Q)
  | GetRide (id : ObjectId) (o : FindOutcome)
  | Connect (sid : string)
  | JoinRideRoom (sid : string) (userId : JsVal)
  | Disconnect (sid : string)
  | Tick (ms : N).

Record State := mkState {
  now : Date;                              (* the clock *)
  nextObjectId : N;                        (* the ObjectId generator *)
  nextReq : nat;                           (* number of the next request *)
  rides : gmap N Ride;                     (* the rides collection *)
  sockets : gset string;                   (* every socket id ever used *)
  rooms : list (string * JsVal);           (* (socket, room) memberships *)
  tasks : gmap nat Task;                   (* suspended handlers *)
  responses : list (nat * Response);       (* HTTP answers, by request *)
  delivered : list (nat * string * RideUpdate);
      (* events put on a socket, with the request they stem from *)
  journal : list (N * Status)
      (* every write to a ride's status, oldest first; the code keeps no
         such list, the proofs read it *)
}.

Definition init : State :=
  {| now := 0; nextObjectId := 0; nextReq := 0; rides := ∅;
     sockets := ∅; rooms := []; tasks := ∅;
     responses := []; delivered := []; journal := [] |}.

(** Updates of one component of the state. *)
Definition set_now (v : Date) (s : State) : State :=
  mkState v (nextObjectId s) (nextReq s) (rides s) (sockets s) (rooms s)
    (tasks s) (responses s) (delivered s) (journal s).
Definition set_nextObjectId (v : N) (s : State) : State :=
  mkState (now s) v (nextReq s) (rides s) (sockets s) (rooms s)
    (tasks s) (responses s) (delivered s) (journal s).
Definition set_nextReq (v : nat) (s : State) : State :=
  mkState (now s) (nextObjectId s) v (rides s) (sockets s) (rooms s)
    (tasks s) (responses s) (delivered s) (journal s).
Definition set_rides (v : gmap N Ride) (s : State) : State :=
  mkState (now s) (nextObjectId s) (nextReq s) v (sockets s) (rooms s)
    (tasks s) (responses s) (delivered s) (journal s).
Definition set_sockets (v : gset string) (s : State) : State :=
  mkState (now s) (nextObjectId s) (nextReq s) (rides s) v (rooms s)
    (tasks s) (responses s) (delivered s) (journal s).
Definition set_rooms (v : list (string * JsVal)) (s : State) : State :=
  mkState (now s) (nextObjectId s) (nextReq s) (rides s) (sockets s) v
    (tasks s) (responses s) (delivered s) (journal s).
Definition set_tasks (v : gmap nat Task) (s : State) : State :=
  mkState (now s) (nextObjectId s) (nextReq s) (rides s) (sockets s) (rooms s)
    v (responses s) (delivered s) (journal s).
Definition set_responses (v : list (nat * Response)) (s : State) : State :=
  mkState (now s) (nextObjectId s) (nextReq s) (rides s) (sockets s) (rooms s)
    (tasks s) v (delivered s) (journal s).
Definition set_delivered (v : list (nat * string * RideUpdate)) (s : State)
    : State :=
  mkState (now s) (nextObjectId s) (nextReq s) (rides s) (sockets s) (rooms s)
    (tasks s) (responses s) v (journal s).
Definition set_journal (v : list (N * Status)) (s : State) : State :=
  mkState (now s) (nextObjectId s) (nextReq s) (rides s) (sockets s) (rooms s)
    (tasks s) (responses s) (delivered s) v.

(** [res.status(c).json(b)] for request [q]. *)
Definition respond (q : nat) (c : Z) (b : Body) (s : State) : State :=
  set_responses (responses s ++ [(q, mkResponse c b)]) s.

(** [doc.save()] once it has resolved. *)
Definition store (doc : Ride) (s : State) : State :=
  set_rides (<[_id doc := doc]> (rides s)) s.

(** **** Socket.IO rooms

    The adapter keeps, for every room, the set of sockets in it.  A socket
    is put in the room of its own id when it connects and taken out of
    every room when it disconnects. *)

Definition connected (sid : string) (rs : list (string * JsVal)) : bool :=
  existsb (λ p, String.eqb p.1 sid) rs.

Definition in_room (sid : string) (room : JsVal)
    (rs : list (string * JsVal)) : bool :=
  existsb (λ p, String.eqb p.1 sid && sameValueZero p.2 room) rs.

(** [socket.join(room)]. *)
Definition join (sid : string) (room : JsVal)
    (rs : list (string * JsVal)) : list (string * JsVal) :=
  if in_room sid room rs then rs else rs ++ [(sid, room)].

Definition leaveAll (sid : string)
    (rs : list (string * JsVal)) : list (string * JsVal) :=
  List.filter (λ p, negb (String.eqb p.1 sid)) rs.

(** The sockets [io.to(room)] addresses. *)
Definition members (room : JsVal) (rs : list (string * JsVal)) : list string :=
  fst <$> List.filter (λ p, sameValueZero p.2 room) rs.

(** [io.to(room).emit('rideUpdate', ev)], in the handler of request [q]. *)
Definition emitTo (q : nat) (room : JsVal) (ev : RideUpdate) (s : State)
    : State :=
  set_delivered
    (delivered s ++ ((λ sid, (q, sid, ev)) <$> members room (rooms s))) s.

(** Line 346: a connection. *)
Definition onConnection (sid : string) (s : State) : State :=
  if decide (sid ∈ sockets s) then s
  else set_rooms (rooms s ++ [(sid, VStr sid)])
         (set_sockets ({[sid]} ∪ sockets s) s).

(** Lines 351-354. *)
Definition joinRideRoom (sid : string) (userId : JsVal) (s : State) : State :=
  if connected sid (rooms s) then set_rooms (join sid userId (rooms s)) s
  else s.

(** Lines 364-366, and what Socket.IO does itself on a disconnect. *)
Definition onDisconnect (sid : string) (s : State) : State :=
  set_rooms (leaveAll sid (rooms s)) s.

(** **** [POST /api/rides/request] (lines 264-329) *)

(** Lines 266-279, up to the first [await]. *)
Definition requestRide (rider pickup dest : JsVal) (s : State) : State :=
  let q := nextReq s in
  let s := set_nextReq (S q) s in
  if negb (truthy rider) || negb (truthy pickup) || negb (truthy dest) then
    respond q 400 (JMessage "Missing required ride details.") s
  else
    let doc := newRide (nextObjectId s) (now s) rider pickup dest in
    set_tasks (<[q := AwaitCreate rider doc]> (tasks s))
      (set_journal (journal s ++ [(_id doc, status doc)])
        (set_nextObjectId (N.succ (nextObjectId s)) s)).

(** Line 279 settles: lines 283 and 323 arm the timer, or the [catch] of
    lines 325-328 answers. *)
Definition afterCreate (q : nat) (rider : JsVal) (doc : Ride)
    (o : SaveOutcome) (s : State) : State :=
  match o with
  | Saved =>
      set_tasks (<[q := AwaitTimer rider doc (now s + 3000)]> (tasks s))
        (store doc s)
  | SaveRejected msg =>
      respond q 500 (JError "Failed to request ride" msg)
        (set_tasks (delete q (tasks s)) s)
  end.

(** Lines 284-298: the timer callback, up to its [await]. *)
Definition matchDriver (q : nat) (rider : JsVal) (doc : Ride) (r1 r2 : Q)
    (s : State) : State :=
  let driver := mockDriver (nextObjectId s) in
  let fare := fareText r1 in
  let eta := etaText r2 in
  let doc := applyMatch doc (drv_id driver) fare eta (now s) in
  set_tasks (<[q := AwaitMatchSave rider doc driver]> (tasks s))
    (set_journal (journal s ++ [(_id doc, status doc)])
      (set_nextObjectId (N.succ (nextObjectId s)) s)).

(** Line 298 settles: lines 301-321 emit and answer.  A rejection is
    caught by nothing: the callback ends there, without event and without
    answer.  (Node may then stop the process; a run that ends there is a
    run of this model too.) *)
Definition afterMatchSave (q : nat) (rider : JsVal) (doc : Ride)
    (driver : MockDriver) (o : SaveOutcome) (s : State) : State :=
  match o with
  | Saved =>
      respond q 200 (JRideAnswer (rideAnswer doc driver))
        (emitTo q rider (rideUpdate doc driver)
          (set_tasks (delete q (tasks s)) (store doc s)))
  | SaveRejected _ => set_tasks (delete q (tasks s)) s
  end.

(** **** [GET /api/rides/:id] (lines 332-343) *)
Definition getRide (id : ObjectId) (o : FindOutcome) (s : State) : State :=
  let q := nextReq s in
  let s := set_nextReq (S q) s in
  match o with
  | FindResolved rider driver =>
      match rides s !! id with
      | None => respond q 404 (JMessage "Ride not found") s
      | Some ride => respond q 200 (JRide ride rider driver) s
      end
  | FindRejected msg =>
      respond q 500 (JError "Failed to fetch ride status" msg) s
  end.

(** One turn of the event loop. *)
Definition step (s : State) (i : Input) : State :=
  match i with
  | PostRideRequest rider pickup dest => requestRide rider pickup dest s
  | SaveSettles q o =>
      match tasks s !! q with
      | Some (AwaitCreate rider doc) => afterCreate q rider doc o s
      | Some (AwaitMatchSave rider doc driver) =>
          afterMatchSave q rider doc driver o s
      | _ => s
      end
  | TimerFires q r1 r2 =>
      match tasks s !! q with
      | Some (AwaitTimer rider doc due) =>
          if (due <=? now s)%Z then matchDriver q rider doc r1 r2 s else s
      | _ => s
      end
  | GetRide id o => getRide id o s
  | Connect sid => onConnection sid s
  | JoinRideRoom sid userId => joinRideRoom sid userId s
  | Disconnect sid => onDisconnect sid s
  | Tick ms => set_now (now s + Z.of_N ms)%Z s
  end.

Definition run (s : State) (tr : list Input) : State := fold_left step tr s.

(** *** Reading a run *)

(** The statuses written to ride [id], oldest first. *)
Definition hist (j : list (N * Status)) (id : N) : list Status :=
  (filter (λ p, p.1 = id) j).*2.

(** The identifiers [new Ride] has handed out, oldest first. *)
Definition createdIds (j : list (N * Status)) : list N :=
  (filter (λ p, p.2 = searching) j).*1.

(** The answers request [q] has got, and the events emitted for it. *)
Definition answers (q : nat) (s : State) : list Response :=
  (filter (λ p, p.1 = q) (responses s)).*2.

Definition events (q : nat) (s : State) : list (nat * string * RideUpdate) :=
  filter (λ d, d.1.1 = q) (delivered s).

(** A field of the request body that is missing or empty. *)
Definition absent (v : JsVal) : Prop :=
  v = VUndefined ∨ v = VStr EmptyString.

(** In the run [tr], socket [sid] has joined [room] and has not
    disconnected since. *)
Definition joined (tr : list Input) (sid : string) (room : JsVal) : Prop :=
  ∃ tr1 userId tr2,
    tr = tr1 ++ JoinRideRoom sid userId :: tr2
    ∧ connected sid (rooms (run init tr1)) = true
    ∧ sameValueZero userId room = true
    ∧ Disconnect sid ∉ tr2.

(** In the run [tr], socket [sid] was connected once and has
    disconnected. *)
Definition left (tr : list Input) (sid : string) : Prop :=
  ∃ tr1 tr2,
    tr = tr1 ++ Disconnect sid :: tr2 ∧ sid ∈ sockets (run init tr1).

(** What a suspended handler knows of its document: the statuses written
    to it so far, and that a document not yet saved is not in the
    collection. *)
Definition task_ok (j : list (N * Status)) (rs : gmap N Ride) (t : Task)
    : Prop :=
  match t with
  | AwaitCreate _ d =>
      status d = searching ∧ hist j (_id d) = [searching]
      ∧ rs !! _id d = None
  | AwaitTimer _ d _ =>
      status d = searching ∧ hist j (_id d) = [searching]
  | AwaitMatchSave _ d _ =>
      status d = accepted ∧ hist j (_id d) = [searching; accepted]
  end.

(** The invariant of rides, suspended handlers and journal: a handler is
    numbered below the next request, an identifier in the journal is
    below the next identifier, two handlers hold documents of different
    identifiers, and a stored ride is still held by a handler or has had
    its two writes. *)
Record Inv (s : State) : Prop := {
  inv_task_key : ∀ q t, tasks s !! q = Some t → q < nextReq s;
  inv_jrnl_id : ∀ id st, (id, st) ∈ journal s → (id < nextObjectId s)%N;
  inv_task_inj : ∀ q q' t t',
    tasks s !! q = Some t → tasks s !! q' = Some t' →
    _id (doc_of t) = _id (doc_of t') → q = q';
  inv_task : ∀ q t, tasks s !! q = Some t → task_ok (journal s) (rides s) t;
  inv_ride : ∀ id r, rides s !! id = Some r →
    _id r = id
    ∧ (status r = searching ∨ status r = accepted)
    ∧ ((∃ q t, tasks s !! q = Some t ∧ _id (doc_of t) = id)
       ∨ hist (journal s) id = [searching; accepted]);
  inv_hist : ∀ id,
    hist (journal s) id = [] ∨ hist (journal s) id = [searching]
    ∨ hist (journal s) id = [searching; accepted];
  inv_created : NoDup (createdIds (journal s))
}.

(** Answers and events carry the number of a request that has arrived. *)
Definition keys_ok (s : State) : Prop :=
  (∀ q r, (q, r) ∈ responses s → q < nextReq s)
  ∧ (∀ q sid ev, (q, sid, ev) ∈ delivered s → q < nextReq s).

(** Runs of the scenarios of the specification. *)
Definition scenario1_open : list Input :=
  [PostRideRequest (VStr "u1") (VStr "A") (VStr "B"); SaveSettles 0 Saved].

Definition scenario1_match : list Input :=
  [Tick 3000; TimerFires 0 (1 # 3) (1 # 2); SaveSettles 0 Saved].

Definition scenario3 : list Input :=
  [Connect "a"; JoinRideRoom "a" (VStr "u2");
   Connect "b"; JoinRideRoom "b" (VStr "u2");
   Connect "c"; JoinRideRoom "c" (VStr "u2");
   PostRideRequest (VStr "u2") (VStr "A") (VStr "B"); SaveSettles 0 Saved;
   Disconnect "c";
   Tick 3000; TimerFires 0 (1 # 3) (1 # 2)].

End Backend.

(** ** The form of the front end (lines 1-167) *)

Module Frontend.

Import JS.

(** The object of lines 36-43. *)
Record RideDetails := mkRideDetails {
  driverName : string;
  driverVehicle : string;
  estimatedArrivalTime : string;
  fare : string;
  pickupTime : Backend.TimeText;
  status : string
}.

(** The six [useState] cells of [App] (lines 6-12). *)
Record AppState := mkApp {
  pickupLocation : string;
  destination : string;
  isRequesting : bool;
  driverFound : bool;
  rideDetails : option RideDetails;
  error : string
}.

Definition setPickupLocation (v : string) (s : AppState) : AppState :=
  mkApp v (destination s) (isRequesting s) (driverFound s) (rideDetails s)
    (error s).
Definition setDestination (v : string) (s : AppState) : AppState :=
  mkApp (pickupLocation s) v (isRequesting s) (driverFound s) (rideDetails s)
    (error s).
Definition setIsRequesting (v : bool) (s : AppState) : AppState :=
  mkApp (pickupLocation s) (destination s) v (driverFound s) (rideDetails s)
    (error s).
Definition setDriverFound (v : bool) (s : AppState) : AppState :=
  mkApp (pickupLocation s) (destination s) (isRequesting s) v (rideDetails s)
    (error s).
Definition setRideDetails (v : option RideDetails) (s : AppState) : AppState :=
  mkApp (pickupLocation s) (destination s) (isRequesting s) (driverFound s) v
    (error s).
Definition setError (v : string) (s : AppState) : AppState :=
  mkApp (pickupLocation s) (destination s) (isRequesting s) (driverFound s)
    (rideDetails s) v.

(** Whether the handler has returned or waits for the promise of line 33. *)
Inductive Control := Returned | AwaitingDelay.

(** Lines 15-33 of [handleRequestRide], up to the [await]. *)
Definition handleRequestRide (s : AppState) : AppState * Control :=
  if negb (truthyStr (pickupLocation s)) || negb (truthyStr (destination s))
  then
    (setError "Please enter both pickup location and destination." s,
     Returned)
  else
    (setRideDetails None
       (setDriverFound false (setIsRequesting true (setError EmptyString s))),
     AwaitingDelay).

Definition mockRideData (now : Z) : RideDetails :=
  {| driverName := "Alice Smith";
     driverVehicle := "Toyota Camry (ABC-123)";
     estimatedArrivalTime := "3 minutes";
     fare := "$15.50";
     pickupTime := Backend.LocaleTimeString now;
     status := "Driver on the way" |}.

(** Lines 36-53, once the 3 second promise has resolved: it never
    rejects, so the [catch] is not entered; [finally] runs last. *)
Definition afterDelay (now : Z) (s : AppState) : AppState :=
  setIsRequesting false
    (setDriverFound true (setRideDetails (Some (mockRideData now)) s)).

(** Lines 57-64. *)
Definition handleNewRide (s : AppState) : AppState :=
  setError EmptyString
    (setRideDetails None
      (setDriverFound false
        (setIsRequesting false
          (setDestination EmptyString (setPickupLocation EmptyString s))))).

End Frontend.

(** ** The screen of the front end (lines 66-165) *)

Module Screen.

Import JS Frontend.

(** The initial values of the six [useState] cells (lines 6-12). *)
Definition initial : AppState :=
  mkApp EmptyString EmptyString false false None EmptyString.

(** The four conditional blocks of the JSX: the error banner (line 73),
    the form (line 80), the spinner (line 119) and the driver panel
    (line 127). *)
Definition showsError (s : AppState) : bool := truthyStr (error s).

Definition showsForm (s : AppState) : bool :=
  negb (driverFound s) && negb (isRequesting s).

Definition showsSearching (s : AppState) : bool := isRequesting s.

Definition showsDriver (s : AppState) : bool :=
  driverFound s && match rideDetails s with Some _ => true | None => false end.

(** What the user and the timer do.  An input or a button can be used
    only while the block that holds it is on the screen.  [Submit] stands
    for a call of [onSubmit]; a browser makes that call only when its own
    check of the two [required] inputs (lines 93, 107) has passed, which
    is not modelled: the model allows the call with any field values. *)
Inductive Event :=
  | ChangePickup (v : string)        (* line 92 *)
  | ChangeDestination (v : string)   (* line 106 *)
  | Submit                           (* line 81 *)
  | DelayResolves (now : Z)          (* the promise of line 33 *)
  | ClickNewRide.                    (* line 150 *)

(** The component: its state, and the number of calls of
    [handleRequestRide] that wait at line 33. *)
Record Ui := mkUi { app : AppState; waiting : nat }.

Definition start : Ui := mkUi initial 0.

Definition react (u : Ui) (e : Event) : Ui :=
  match e with
  | ChangePickup v =>
      if showsForm (app u)
      then mkUi (setPickupLocation v (app u)) (waiting u) else u
  | ChangeDestination v =>
      if showsForm (app u)
      then mkUi (setDestination v (app u)) (waiting u) else u
  | Submit =>
      if showsForm (app u) then
        match handleRequestRide (app u) with
        | (s', Returned) => mkUi s' (waiting u)
        | (s', AwaitingDelay) => mkUi s' (S (waiting u))
        end
      else u
  | DelayResolves now =>
      match waiting u with
      | O => u
      | S n => mkUi (afterDelay now (app u)) n
      end
  | ClickNewRide =>
      if showsDriver (app u) then mkUi (handleNewRide (app u)) (waiting u)
      else u
  end.

Definition session (u : Ui) (es : list Event) : Ui := fold_left react es u.

(** The three state updates of lines 45, 46 and 52 come after the
    [await], where React before version 18 renders after each of them:
    the states that can reach the screen while the delay resolves. *)
Definition afterDelay_renders (now : Z) (s : AppState) : list AppState :=
  let s1 := setRideDetails (Some (mockRideData now)) s in
  let s2 := setDriverFound true s1 in
  let s3 := setIsRequesting false s2 in
  [s1; s2; s3].

(** What holds between two events: a call waits exactly while
    [isRequesting] is set, then no driver is shown, and a driver that is
    found has its details. *)
Definition settled (u : Ui) : Prop :=
  waiting u = (if isRequesting (app u) then 1 else 0)
  ∧ (isRequesting (app u) = true → driverFound (app u) = false)
  ∧ (driverFound (app u) = true → rideDetails (app u) ≠ None).

End Screen.

(** ** Login (lines 248-261) *)

Module Accounts.

Import JS Backend.

(** How [User.findOne({ username })] settles.  The users collection and
    the casting of the query belong to Mongoose. *)
Inductive FindOneOutcome :=
  | FindOneResolved (user : option User)
  | FindOneRejected (message : string).

Inductive LoginBody :=
  | LMessage (message : string)
  | LError (message error : string)
  | LSuccess (message : string) (userId : ObjectId) (role : string).

(** [stored === given], for a stored string: no conversion is made. *)
Definition strictEqualsString (stored : string) (given : JsVal) : bool :=
  match given with
  | VStr x => String.eqb stored x
  | _ => false
  end.

(** [!user || user.password !== password] (line 252). *)
Definition invalidCredentials (user : option User) (password : JsVal)
    : bool :=
  match user with
  | None => true
  | Some u => negb (strictEqualsString (Backend.password u) password)
  end.

(** Lines 249-260, once the query has settled. *)
Definition login (o : FindOneOutcome) (password : JsVal) : Z * LoginBody :=
  match o with
  | FindOneResolved user =>
      if invalidCredentials user password
      then (401%Z, LMessage "Invalid credentials")
      else
        match user with
        | Some u =>
            (200%Z, LSuccess "Login successful" (user_id u) (Backend.role u))
        | None => (401%Z, LMessage "Invalid credentials")
        end
  | FindOneRejected msg => (500%Z, LError "Error logging in" msg)
  end.

End Accounts.

(** ** More invariants of a run *)

Module Lifecycle.

Import JS Backend.

(** No suspended handler holds a document with identifier [id]. *)
Definition orphan (id : N) (s : State) : Prop :=
  ∀ q t, tasks s !! q = Some t → _id (doc_of t) ≠ id.

(** A document before and after the match. *)
Definition unmatched (d : Ride) : Prop :=
  driverId d = None ∧ fare d = None ∧ estimatedArrivalTime d = None
  ∧ pickupTime d = None.

Definition matched (d : Ride) : Prop :=
  is_Some (driverId d) ∧ is_Some (fare d)
  ∧ is_Some (estimatedArrivalTime d)
  ∧ ∃ t, pickupTime d = Some t ∧ (createdAt d + 3000 <= t)%Z.

Definition doc_ok (d : Ride) : Prop :=
  match status d with
  | searching => unmatched d
  | accepted => matched d
  | _ => False
  end
  ∧ updatedAt d = createdAt d.

(** Two versions of the ride of one request. *)
Definition same_request (d r : Ride) : Prop :=
  _id d = _id r ∧ riderId d = riderId r
  ∧ pickupLocation d = pickupLocation r ∧ destination d = destination r
  ∧ createdAt d = createdAt r ∧ updatedAt d = updatedAt r.

Record Inv_docs (s : State) : Prop := {
  docs_task : ∀ q t, tasks s !! q = Some t →
    doc_ok (doc_of t) ∧ (createdAt (doc_of t) <= now s)%Z;
  docs_timer : ∀ q rider d due,
    tasks s !! q = Some (AwaitTimer rider d due) →
    (createdAt d + 3000 <= due)%Z;
  docs_stored : ∀ q t, tasks s !! q = Some t →
    match t with
    | AwaitCreate _ _ => True
    | _ => ∃ r, rides s !! _id (doc_of t) = Some r
                ∧ status r = searching ∧ same_request (doc_of t) r
    end;
  docs_ride : ∀ id r, rides s !! id = Some r → doc_ok r
}.

Record Inv_io (s : State) : Prop := {
  io_pending : ∀ q t, tasks s !! q = Some t →
    answers q s = [] ∧ events q s = [];
  io_one : ∀ q, length (answers q s) <= 1;
  io_event : ∀ q sid ev, (q, sid, ev) ∈ delivered s →
    ∃ doc driver,
      ev = rideUpdate doc driver ∧ status doc = accepted
      ∧ rides s !! _id doc = Some doc ∧ orphan (_id doc) s
      ∧ answers q s = [mkResponse 200 (JRideAnswer (rideAnswer doc driver))]
}.

(** No socket is twice in one room. *)
Fixpoint distinct_rooms (rs : list (string * JsVal)) : Prop :=
  match rs with
  | [] => True
  | p :: rest =>
      (∀ r, (p.1, r) ∈ rest → sameValueZero p.2 r = false)
      ∧ distinct_rooms rest
  end.

Definition Inv_rooms (s : State) : Prop :=
  distinct_rooms (rooms s) ∧ ∀ sid r, (sid, r) ∈ rooms s → sid ∈ sockets s.

(** The largest binary64 number below 1. *)
Definition below_one : Q := Qmake (2 ^ 53 - 1) (2 ^ 53).

(** *** The text of an identifier *)

(** The value of a hexadecimal digit. *)
Definition hexValue (c : ascii) : option N :=
  let n := N_of_ascii c in
  if (48 <=? n)%N && (n <=? 57)%N then Some (n - 48)%N
  else if (97 <=? n)%N && (n <=? 102)%N then Some (n - 87)%N
  else if (65 <=? n)%N && (n <=? 70)%N then Some (n - 55)%N
  else None.

Fixpoint parseHex (s : string) (acc : N) : option N :=
  match s with
  | EmptyString => Some acc
  | String c rest =>
      match hexValue c with
      | Some v => parseHex rest (16 * acc + v)%N
      | None => None
      end
  end.

(** The cast of a string to an ObjectId, as Mongoose and [bson] make it:
    the string must be 24 hexadecimal digits.  ([bson] before version 5
    also reads a string of 12 characters as twelve raw bytes; such
    strings are kept out of the statements below.) *)
Definition parseObjectId (param : string) : option ObjectId :=
  if (String.length param =? 24)%nat then parseHex param 0%N else None.

(** A value of the request body that the cast of [riderId] (line 213)
    accepts, so that the save of the ride can resolve. *)
Definition castableObjectId (v : JsVal) : bool :=
  match v with
  | VStr x => match parseObjectId x with Some _ => true | None => false end
  | _ => false
  end.


(** *** More readings of a run *)

Definition reachable (s : State) : Prop := ∃ tr, s = run init tr.

(** The request an input resumes, if any. *)
Definition addressed (i : Input) : option nat :=
  match i with
  | SaveSettles q _ | TimerFires q _ _ => Some q
  | _ => None
  end.

(** Inputs that resume other requests than [q], or none. *)
Definition others (q : nat) (tr : list Input) : Prop :=
  Forall (λ i, addressed i ≠ Some q) tr.


(** A rider whose identifier the cast accepts, and runs of a request of
    that rider: created at time 0, timer fired at time 3000, and the save
    of the match resolved or rejected. *)
Definition rider507 : JsVal := VStr "507f1f77bcf86cd799439011".

Definition scenario4_open : list Input :=
  [PostRideRequest rider507 (VStr "A") (VStr "B"); SaveSettles 0 Saved].

Definition scenario4_match : list Input :=
  [Tick 3000; TimerFires 0 (1 # 3) (1 # 2); SaveSettles 0 Saved].


End Lifecycle.

Import JS Backend Lifecycle.

(** * Properties *)

(** ** Rounding stays between representable bounds *)

Section Rounding.

Local Open Scope Z_scope.

Lemma rne_between a b lo hi :
  0 < b → lo * b <= a → a <= hi * b → lo <= Number.rne a b <= hi.
Proof.
  intros Hb Hlo Hhi. unfold Number.rne.
  pose proof (Z.div_mod a b ltac:(lia)) as Hdm.
  pose proof (Z.mod_pos_bound a b Hb) as Hm.
  assert (Hk1 : lo <= a / b) by (apply Z.div_le_lower_bound; lia).
  assert (Hk2 : a / b <= hi) by (apply Z.div_le_upper_bound; lia).
  assert (Hup : 0 < a mod b → a / b + 1 <= hi) by nia.
  repeat case_match; lia.
Qed.

Lemma ge_pow2_binade n d :
  0 < n → 0 < d → Number.ge_pow2 n d (Number.binade n d) = true.
Proof.
  intros Hn Hd. unfold Number.binade.
  destruct (Number.ge_pow2 n d (Z.log2 n - Z.log2 d)) eqn:E; [exact E|].
  pose proof (Z.log2_spec n Hn) as [Hn1 Hn2].
  pose proof (Z.log2_spec d Hd) as [Hd1 Hd2].
  pose proof (Z.log2_nonneg n) as Hln.
  pose proof (Z.log2_nonneg d) as Hld.
  unfold Number.ge_pow2.
  destruct (0 <=? Z.log2 n - Z.log2 d - 1) eqn:Es.
  - apply Z.leb_le in Es. apply Z.leb_le.
    assert (Hp : 2 ^ Z.log2 n
                 = 2 ^ Z.succ (Z.log2 d) * 2 ^ (Z.log2 n - Z.log2 d - 1)).
    { rewrite <- Z.pow_add_r by lia. f_equal. lia. }
    assert (0 < 2 ^ (Z.log2 n - Z.log2 d - 1)) by (apply Z.pow_pos_nonneg; lia).
    nia.
  - apply Z.leb_gt in Es. apply Z.leb_le.
    assert (Hp : 2 ^ Z.succ (Z.log2 d)
                 = 2 ^ Z.log2 n * 2 ^ (- (Z.log2 n - Z.log2 d - 1))).
    { rewrite <- Z.pow_add_r by lia. f_equal. lia. }
    assert (0 < 2 ^ (- (Z.log2 n - Z.log2 d - 1)))
      by (apply Z.pow_pos_nonneg; lia).
    nia.
Qed.

Lemma binade_small n d hi :
  0 < n → 0 < d → n <= hi * d → hi < 2 ^ 52 → Number.binade n d < 52.
Proof.
  intros Hn Hd Hhi Hlt.
  pose proof (ge_pow2_binade n d Hn Hd) as H.
  destruct (Z_lt_le_dec (Number.binade n d) 52) as [|Hge]; [assumption|].
  exfalso. unfold Number.ge_pow2 in H.
  destruct (0 <=? Number.binade n d) eqn:E; [|apply Z.leb_gt in E; lia].
  apply Z.leb_le in H.
  assert (2 ^ 52 <= 2 ^ Number.binade n d) by (apply Z.pow_le_mono_r; lia).
  nia.
Qed.

Lemma round_pos_between n d lo hi :
  0 < n → 0 < d → lo * d <= n → n <= hi * d → hi < 2 ^ 52 →
  (inject_Z lo <= Number.round_pos n d <= inject_Z hi)%Q.
Proof.
  intros Hn Hd Hlo Hhi Hlt.
  pose proof (binade_small n d hi Hn Hd Hhi Hlt) as Hb.
  unfold Number.round_pos.
  set (s := Z.max (Number.binade n d) (-1022) - 52).
  assert (Hs : s < 0) by (unfold s; lia).
  destruct (0 <=? s) eqn:E; [apply Z.leb_le in E; lia|].
  unfold Number.scale. rewrite E.
  assert (Hp : 0 < 2 ^ (- s)) by (apply Z.pow_pos_nonneg; lia).
  destruct (rne_between (n * 2 ^ (- s)) d (lo * 2 ^ (- s)) (hi * 2 ^ (- s)))
    as [H1 H2]; [lia | nia | nia |].
  unfold Qle; simpl. rewrite Z2Pos.id by exact Hp. lia.
Qed.

Lemma fl_between q lo hi :
  0 <= lo → hi < 2 ^ 52 →
  (inject_Z lo <= q <= inject_Z hi)%Q →
  (inject_Z lo <= Number.fl q <= inject_Z hi)%Q.
Proof.
  intros H0 Hlt [Hlo Hhi]. destruct q as [n d].
  unfold Qle in Hlo, Hhi; simpl in Hlo, Hhi.
  unfold Number.fl; simpl. destruct n as [|n|n].
  - unfold Qle; simpl. lia.
  - apply round_pos_between; lia.
  - lia.
Qed.

End Rounding.

(** ** The simulated match *)

Section MatchRange.

Local Open Scope Q_scope.

Lemma raw_fare_range r :
  0 <= r < 1 → 10 <= Number.add (Number.mul r 20) 10 <= 30.
Proof.
  intros Hr. unfold Number.add, Number.mul.
  assert (H1 : inject_Z 0 <= Number.fl (r * 20) <= inject_Z 20).
  { apply fl_between; [lia | reflexivity |]. unfold inject_Z. lra. }
  unfold inject_Z in H1.
  change 10 with (inject_Z 10) at 1 3. change 30 with (inject_Z 30).
  apply fl_between; [lia | reflexivity |]. unfold inject_Z. lra.
Qed.

Lemma toFixed2_range x :
  10 <= x <= 30 → (1000 <= Number.toFixed2 x <= 3000)%Z.
Proof.
  intros Hx. unfold Number.toFixed2.
  assert (Hpos : Qle_bool 0 x = true) by (apply Qle_bool_iff; lra).
  rewrite Hpos. split.
  - rewrite <- (Qfloor_Z 1000). apply Qfloor_resp_le. unfold inject_Z. lra.
  - change 3000%Z with (Qfloor (3000 + (1 # 2))).
    apply Qfloor_resp_le. lra.
Qed.

Lemma fareText_range r : 0 <= r < 1 → (1000 <= fareText r <= 3000)%Z.
Proof. intros Hr. apply toFixed2_range, raw_fare_range, Hr. Qed.

Lemma parseFloat2_range n :
  (1000 <= n <= 3000)%Z → 10 <= Number.parseFloat2 n <= 30.
Proof.
  intros Hn. unfold Number.parseFloat2.
  change 10 with (inject_Z 10). change 30 with (inject_Z 30).
  apply fl_between; [lia | reflexivity |].
  unfold Qle; simpl. lia.
Qed.

Lemma etaMinutes_range r : 0 <= r < 1 → (2 <= etaMinutes r <= 7)%Z.
Proof.
  intros Hr. unfold etaMinutes, Number.floor, Number.mul.
  assert (H1 : inject_Z 0 <= Number.fl (r * 5) <= inject_Z 5).
  { apply fl_between; [lia | reflexivity |]. unfold inject_Z. lra. }
  destruct H1 as [Ha Hb].
  apply Qfloor_resp_le in Ha, Hb. rewrite Qfloor_Z in Ha, Hb. lia.
Qed.

End MatchRange.

(** C3.  Whatever the two draws of [Math.random] in [0, 1) are, the
    document updated by the timer callback carries a fare between 10.00
    and 30.00 and an arrival text ["n minutes"] whose [n] is a whole
    number between 2 and 7. *)
Theorem match_fare_and_eta_in_range
    (doc : Ride) (driver : ObjectId) (r1 r2 : Q) (t : Date) :
  (0 <= r1 < 1)%Q → (0 <= r2 < 1)%Q →
  let m := applyMatch doc driver (fareText r1) (etaText r2) t in
  (∃ f, fare m = Some f ∧ (10 <= f <= 30)%Q) ∧
  (∃ n, estimatedArrivalTime m = Some (pretty n +:+ " minutes")
        ∧ (2 <= n <= 7)%Z).
Proof.
  intros H1 H2 m. split.
  - exists (Number.parseFloat2 (fareText r1)). split; [reflexivity|].
    apply parseFloat2_range, fareText_range, H1.
  - exists (etaMinutes r2). split; [reflexivity|].
    apply etaMinutes_range, H2.
Qed.

Lemma match_fare_and_eta_in_range_witness :
  let m := applyMatch (newRide 0 0 (VStr "u1") (VStr "A") (VStr "B")) 1
             (fareText (1 # 3)) (etaText (1 # 2)) 3000 in
  (∃ f, fare m = Some f ∧ (10 <= f <= 30)%Q) ∧
  (∃ n, estimatedArrivalTime m = Some (pretty n +:+ " minutes")
        ∧ (2 <= n <= 7)%Z).
Proof.
  apply (match_fare_and_eta_in_range
           (newRide 0 0 (VStr "u1") (VStr "A") (VStr "B")) 1
           (1 # 3) (1 # 2) 3000);
    unfold Qle, Qlt; simpl; lia.
Defined.

(** ** The update of the document *)

(** C4.  The update of the timer callback sets the driver, the fare, the
    arrival text, the pickup time and the status [accepted], and leaves
    every other field as it was, [updatedAt] included.  For a rider whose
    identifier the cast accepts, with the ride created at time 0 and
    matched at time 3000: the stored ride then has [pickupTime = 3000]
    and the status [accepted], and its [updatedAt] is still the one it
    was created with, not 3000. *)
Theorem match_leaves_updatedAt_at_creation :
  (∀ r driver f eta t,
     let r' := applyMatch r driver f eta t in
     driverId r' = Some driver
     ∧ fare r' = Some (Number.parseFloat2 f)
     ∧ estimatedArrivalTime r' = Some eta
     ∧ pickupTime r' = Some t
     ∧ status r' = accepted
     ∧ updatedAt r' = updatedAt r
     ∧ _id r' = _id r ∧ riderId r' = riderId r
     ∧ pickupLocation r' = pickupLocation r
     ∧ destination r' = destination r
     ∧ createdAt r' = createdAt r)
  ∧ castableObjectId rider507 = true
  ∧ ∃ r0 r,
      rides (run init scenario4_open) !! 0%N = Some r0
      ∧ status r0 = searching
      ∧ rides (run init (scenario4_open ++ scenario4_match)) !! 0%N = Some r
      ∧ driverId r = Some 1%N
      ∧ status r = accepted
      ∧ estimatedArrivalTime r = Some "4 minutes"
      ∧ pickupTime r = Some 3000%Z
      ∧ updatedAt r = updatedAt r0
      ∧ updatedAt r ≠ 3000%Z.
Proof.
  split; [|split; [reflexivity|]].
  - intros r driver f eta t. simpl. repeat split; reflexivity.
  - eexists _, _. split; [vm_compute; reflexivity|]. split; [reflexivity|].
    split; [vm_compute; reflexivity|].
    repeat split; discriminate.
Qed.

(** ** Runs and the journal *)

Lemma run_app s tr1 tr2 : run s (tr1 ++ tr2) = run (run s tr1) tr2.
Proof. unfold run. apply fold_left_app. Qed.

Lemma run_snoc s tr i : run s (tr ++ [i]) = step (run s tr) i.
Proof. rewrite run_app. reflexivity. Qed.

Lemma run_cons s i tr : run s (i :: tr) = run (step s i) tr.
Proof. reflexivity. Qed.

(** Induction on a run from its last step. *)
Lemma run_ind (P : State → Prop) s :
  P s → (∀ s' i, P s' → P (step s' i)) → ∀ tr, P (run s tr).
Proof.
  intros H0 Hstep tr. induction tr as [|i tr IH] using rev_ind.
  - exact H0.
  - rewrite run_snoc. apply Hstep, IH.
Qed.

Lemma hist_app j1 j2 id : hist (j1 ++ j2) id = hist j1 id ++ hist j2 id.
Proof. unfold hist. rewrite filter_app, fmap_app. reflexivity. Qed.

Lemma hist_snoc_eq j id s : hist (j ++ [(id, s)]) id = hist j id ++ [s].
Proof.
  rewrite hist_app. f_equal. unfold hist.
  rewrite filter_cons_True by reflexivity. reflexivity.
Qed.

Lemma hist_snoc_ne j id id' s :
  id ≠ id' → hist (j ++ [(id', s)]) id = hist j id.
Proof.
  intros Hne. rewrite hist_app. unfold hist at 2.
  rewrite filter_cons_False by (simpl; congruence).
  simpl. apply app_nil_r.
Qed.

Lemma elem_of_hist j id s : s ∈ hist j id ↔ (id, s) ∈ j.
Proof.
  unfold hist. rewrite list_elem_of_fmap. split.
  - intros [[id' s'] [-> Hin]]. apply list_elem_of_filter in Hin as [Hid Hin].
    simpl in *. subst. exact Hin.
  - intros Hin. exists (id, s). split; [reflexivity|].
    apply list_elem_of_filter. split; [reflexivity | exact Hin].
Qed.

Lemma hist_fresh j id : (∀ s, (id, s) ∉ j) → hist j id = [].
Proof.
  intros Hno. destruct (hist j id) as [|s l] eqn:E; [reflexivity|].
  exfalso. apply (Hno s), elem_of_hist. rewrite E. left.
Qed.

Lemma createdIds_snoc_searching j id :
  createdIds (j ++ [(id, searching)]) = createdIds j ++ [id].
Proof.
  unfold createdIds. rewrite filter_app, fmap_app.
  rewrite filter_cons_True by reflexivity. reflexivity.
Qed.

Lemma createdIds_snoc_accepted j id :
  createdIds (j ++ [(id, accepted)]) = createdIds j.
Proof.
  unfold createdIds. rewrite filter_app, fmap_app.
  rewrite filter_cons_False by (simpl; discriminate).
  simpl. apply app_nil_r.
Qed.

Lemma elem_of_createdIds j id : id ∈ createdIds j → (id, searching) ∈ j.
Proof.
  unfold createdIds. rewrite list_elem_of_fmap.
  intros [[id' s'] [-> Hin]]. apply list_elem_of_filter in Hin as [Hs Hin].
  simpl in *. subst. exact Hin.
Qed.

(** ** The invariant holds in every run *)

Lemma inv_init : Inv init.
Proof.
  split; simpl; intros; try (rewrite lookup_empty in *; discriminate).
  - by apply elem_of_nil in H.
  - by left.
  - constructor.
Qed.

(** The invariant reads five components of the state only. *)
Lemma inv_frame s s' :
  nextReq s' = nextReq s → nextObjectId s' = nextObjectId s →
  rides s' = rides s → tasks s' = tasks s → journal s' = journal s →
  Inv s → Inv s'.
Proof.
  intros E1 E2 E3 E4 E5 [H1 H2 H3 H4 H5 H6 H7].
  split; rewrite ?E1, ?E2, ?E3, ?E4, ?E5; assumption.
Qed.

Lemma inv_frame_req s s' :
  nextReq s <= nextReq s' → nextObjectId s' = nextObjectId s →
  rides s' = rides s → tasks s' = tasks s → journal s' = journal s →
  Inv s → Inv s'.
Proof.
  intros E1 E2 E3 E4 E5 [H1 H2 H3 H4 H5 H6 H7].
  split; rewrite ?E2, ?E3, ?E4, ?E5; try assumption.
  intros q t Hq. specialize (H1 q t Hq). lia.
Qed.

(** The identifier of a suspended handler's document is in the journal. *)
Lemma task_ok_searching j rs t :
  task_ok j rs t → (_id (doc_of t), searching) ∈ j.
Proof.
  destruct t; simpl; intros H; apply elem_of_hist.
  - destruct H as (_ & -> & _). left.
  - destruct H as (_ & ->). left.
  - destruct H as (_ & ->). left.
Qed.

Lemma inv_task_id s q t :
  Inv s → tasks s !! q = Some t → (_id (doc_of t) < nextObjectId s)%N.
Proof.
  intros HI Hq. eapply inv_jrnl_id; [exact HI|].
  eapply task_ok_searching, inv_task; eassumption.
Qed.

Lemma inv_next_fresh s :
  Inv s → hist (journal s) (nextObjectId s) = []
          ∧ rides s !! nextObjectId s = None.
Proof.
  intros HI.
  assert (Hh : hist (journal s) (nextObjectId s) = []).
  { apply hist_fresh. intros st Hin.
    pose proof (inv_jrnl_id s HI _ _ Hin). lia. }
  split; [exact Hh|].
  destruct (rides s !! nextObjectId s) as [r|] eqn:E; [|reflexivity].
  exfalso. destruct (inv_ride s HI _ _ E) as (_ & _ & [(q & t & Hq & Hid)|Hd]).
  - pose proof (inv_task_id s q t HI Hq). lia.
  - rewrite Hh in Hd. discriminate.
Qed.

Lemma inv_requestRide s rider pickup dest :
  Inv s → Inv (requestRide rider pickup dest s).
Proof.
  intros HI. unfold requestRide.
  destruct (negb (truthy rider) || negb (truthy pickup) || negb (truthy dest)).
  { apply (inv_frame_req s); simpl; auto. }
  destruct (inv_next_fresh s HI) as [Hfresh Hnone].
  set (n := nextObjectId s) in *. set (q := nextReq s).
  assert (En : n = nextObjectId s) by reflexivity.
  assert (Eq : q = nextReq s) by reflexivity.
  clearbody n q.
  assert (Hold : ∀ q' t, tasks s !! q' = Some t →
                         q' ≠ q ∧ _id (doc_of t) ≠ n).
  { intros q' t Hq'. split.
    - pose proof (inv_task_key s HI _ _ Hq'). lia.
    - pose proof (inv_task_id s q' t HI Hq'). lia. }
  split; simpl; rewrite <- ?En, <- ?Eq.
  - intros q' t Hq'. destruct (decide (q = q')) as [<-|Hne]; [lia|].
    rewrite lookup_insert_ne in Hq' by exact Hne.
    pose proof (inv_task_key s HI _ _ Hq'). lia.
  - intros id st Hin. apply elem_of_app in Hin as [Hin|Hin].
    + pose proof (inv_jrnl_id s HI _ _ Hin). lia.
    + apply list_elem_of_singleton in Hin. inversion Hin; subst. lia.
  - intros q1 q2 t1 t2 H1 H2 Hid.
    destruct (decide (q = q1)) as [<-|Hn1], (decide (q = q2)) as [<-|Hn2];
      [reflexivity| | |].
    + rewrite lookup_insert_eq in H1. rewrite lookup_insert_ne in H2 by done.
      inversion H1; subst; simpl in Hid.
      destruct (Hold _ _ H2) as [_ Hx]. congruence.
    + rewrite lookup_insert_eq in H2. rewrite lookup_insert_ne in H1 by done.
      inversion H2; subst; simpl in Hid.
      destruct (Hold _ _ H1) as [_ Hx]. congruence.
    + rewrite lookup_insert_ne in H1, H2 by done.
      eapply inv_task_inj; eassumption.
  - intros q' t Hq'. destruct (decide (q = q')) as [<-|Hne].
    + rewrite lookup_insert_eq in Hq'. inversion Hq'; subst; simpl.
      rewrite hist_snoc_eq, Hfresh. auto.
    + rewrite lookup_insert_ne in Hq' by exact Hne.
      destruct (Hold _ _ Hq') as [_ Hx].
      pose proof (inv_task s HI _ _ Hq') as Hok.
      destruct t; simpl in *; rewrite hist_snoc_ne by exact Hx; exact Hok.
  - intros id r Hr. destruct (inv_ride s HI _ _ Hr) as (H1 & H2 & H3).
    assert (Hid : id ≠ n) by (intros ->; congruence).
    split; [exact H1|]. split; [exact H2|].
    destruct H3 as [(q' & t & Hq' & Ht)|Hd].
    + left. exists q', t. split; [|exact Ht].
      destruct (Hold _ _ Hq') as [Hx _].
      rewrite lookup_insert_ne by congruence. exact Hq'.
    + right. rewrite hist_snoc_ne by exact Hid. exact Hd.
  - intros id. destruct (decide (id = n)) as [->|Hne].
    + rewrite hist_snoc_eq, Hfresh. auto.
    + rewrite hist_snoc_ne by exact Hne. apply (inv_hist s HI).
  - rewrite createdIds_snoc_searching. apply NoDup_app.
    split; [apply (inv_created s HI)|]. split; [|apply NoDup_singleton].
    intros id Hin Hin'. apply list_elem_of_singleton in Hin'. subst.
    apply elem_of_createdIds in Hin.
    pose proof (inv_jrnl_id s HI _ _ Hin). lia.
Qed.

(** Dropping a finished handler keeps what the others know. *)
Lemma inv_afterCreate s q rider doc o :
  Inv s → tasks s !! q = Some (AwaitCreate rider doc) →
  Inv (afterCreate q rider doc o s).
Proof.
  intros HI Hq.
  pose proof (inv_task s HI _ _ Hq) as (Hst & Hh & Hnone). simpl in *.
  assert (Hother : ∀ q' t, q ≠ q' → tasks s !! q' = Some t →
                           _id (doc_of t) ≠ _id doc).
  { intros q' t Hne Hq' Hid. apply Hne.
    eapply (inv_task_inj s HI); [exact Hq | exact Hq' | simpl; congruence]. }
  destruct o as [|msg]; unfold afterCreate, store, respond; split; simpl.
  - intros q' t Hq'. destruct (decide (q = q')) as [<-|Hne].
    + eapply inv_task_key; eassumption.
    + rewrite lookup_insert_ne in Hq' by exact Hne.
      eapply inv_task_key; eassumption.
  - apply (inv_jrnl_id s HI).
  - intros q1 q2 t1 t2 H1 H2 Hid.
    destruct (decide (q = q1)) as [<-|Hn1], (decide (q = q2)) as [<-|Hn2];
      [reflexivity| | |].
    + rewrite lookup_insert_eq in H1. rewrite lookup_insert_ne in H2 by done.
      inversion H1; subst; simpl in Hid.
      exfalso. eapply Hother; [exact Hn2 | exact H2 | congruence].
    + rewrite lookup_insert_eq in H2. rewrite lookup_insert_ne in H1 by done.
      inversion H2; subst; simpl in Hid.
      exfalso. eapply Hother; [exact Hn1 | exact H1 | congruence].
    + rewrite lookup_insert_ne in H1, H2 by done.
      eapply inv_task_inj; eassumption.
  - intros q' t Hq'. destruct (decide (q = q')) as [<-|Hne].
    + rewrite lookup_insert_eq in Hq'. inversion Hq'; subst; simpl. auto.
    + rewrite lookup_insert_ne in Hq' by exact Hne.
      pose proof (inv_task s HI _ _ Hq') as Hok.
      pose proof (Hother _ _ Hne Hq') as Hx.
      destruct t; simpl in *; try exact Hok.
      destruct Hok as (? & ? & ?). repeat split; try assumption.
      rewrite lookup_insert_ne by congruence. assumption.
  - intros id r Hr. destruct (decide (_id doc = id)) as [<-|Hne].
    + rewrite lookup_insert_eq in Hr. inversion Hr; subst.
      split; [reflexivity|]. split; [auto|].
      left. eexists q, _. rewrite lookup_insert_eq. split; reflexivity.
    + rewrite lookup_insert_ne in Hr by exact Hne.
      destruct (inv_ride s HI _ _ Hr) as (H1 & H2 & H3).
      split; [exact H1|]. split; [exact H2|].
      destruct H3 as [(q' & t & Hq' & Ht)|Hd]; [left|right; exact Hd].
      exists q', t. split; [|exact Ht].
      rewrite lookup_insert_ne; [exact Hq'|].
      intros <-. rewrite Hq in Hq'. inversion Hq'; subst. simpl in Ht. done.
  - apply (inv_hist s HI).
  - apply (inv_created s HI).
  - intros q' t Hq'. apply lookup_delete_Some in Hq' as [_ Hq'].
    eapply inv_task_key; eassumption.
  - apply (inv_jrnl_id s HI).
  - intros q1 q2 t1 t2 H1 H2.
    apply lookup_delete_Some in H1 as [_ H1].
    apply lookup_delete_Some in H2 as [_ H2].
    eapply inv_task_inj; eassumption.
  - intros q' t Hq'. apply lookup_delete_Some in Hq' as [_ Hq'].
    eapply inv_task; eassumption.
  - intros id r Hr. destruct (inv_ride s HI _ _ Hr) as (H1 & H2 & H3).
    split; [exact H1|]. split; [exact H2|].
    destruct H3 as [(q' & t & Hq' & Ht)|Hd]; [left|right; exact Hd].
    exists q', t. split; [|exact Ht].
    apply lookup_delete_Some. split; [|exact Hq'].
    intros <-. rewrite Hq in Hq'. inversion Hq'; subst. simpl in *. congruence.
  - apply (inv_hist s HI).
  - apply (inv_created s HI).
Qed.

Lemma inv_matchDriver s q rider doc due r1 r2 :
  Inv s → tasks s !! q = Some (AwaitTimer rider doc due) →
  Inv (matchDriver q rider doc r1 r2 s).
Proof.
  intros HI Hq.
  pose proof (inv_task s HI _ _ Hq) as (Hst & Hh). simpl in *.
  pose proof (inv_task_id s _ _ HI Hq) as Hlt. simpl in Hlt.
  assert (Hother : ∀ q' t, q ≠ q' → tasks s !! q' = Some t →
                           _id (doc_of t) ≠ _id doc).
  { intros q' t Hne Hq' Hid. apply Hne.
    eapply (inv_task_inj s HI); [exact Hq | exact Hq' | simpl; congruence]. }
  unfold matchDriver. split; simpl.
  - intros q' t Hq'. destruct (decide (q = q')) as [<-|Hne].
    + eapply inv_task_key; eassumption.
    + rewrite lookup_insert_ne in Hq' by exact Hne.
      eapply inv_task_key; eassumption.
  - intros id st Hin. apply elem_of_app in Hin as [Hin|Hin].
    + pose proof (inv_jrnl_id s HI _ _ Hin). lia.
    + apply list_elem_of_singleton in Hin. inversion Hin; subst. lia.
  - intros q1 q2 t1 t2 H1 H2 Hid.
    destruct (decide (q = q1)) as [<-|Hn1], (decide (q = q2)) as [<-|Hn2];
      [reflexivity| | |].
    + rewrite lookup_insert_eq in H1. rewrite lookup_insert_ne in H2 by done.
      inversion H1; subst; simpl in Hid.
      exfalso. eapply Hother; [exact Hn2 | exact H2 | congruence].
    + rewrite lookup_insert_eq in H2. rewrite lookup_insert_ne in H1 by done.
      inversion H2; subst; simpl in Hid.
      exfalso. eapply Hother; [exact Hn1 | exact H1 | congruence].
    + rewrite lookup_insert_ne in H1, H2 by done.
      eapply inv_task_inj; eassumption.
  - intros q' t Hq'. destruct (decide (q = q')) as [<-|Hne].
    + rewrite lookup_insert_eq in Hq'. inversion Hq'; subst; simpl.
      rewrite hist_snoc_eq, Hh. auto.
    + rewrite lookup_insert_ne in Hq' by exact Hne.
      pose proof (inv_task s HI _ _ Hq') as Hok.
      pose proof (Hother _ _ Hne Hq') as Hx.
      destruct t; simpl in *; rewrite hist_snoc_ne by exact Hx; exact Hok.
  - intros id r Hr. destruct (inv_ride s HI _ _ Hr) as (H1 & H2 & H3).
    split; [exact H1|]. split; [exact H2|].
    destruct H3 as [(q' & t & Hq' & Ht)|Hd].
    + left. destruct (decide (q = q')) as [<-|Hne].
      * eexists q, _. rewrite lookup_insert_eq. split; [reflexivity|].
        rewrite Hq in Hq'. inversion Hq'; subst. exact Ht.
      * exists q', t. rewrite lookup_insert_ne by exact Hne. auto.
    + right. rewrite hist_snoc_ne; [exact Hd|].
      intros ->. simpl in Hd. rewrite Hh in Hd. discriminate.
  - intros id. destruct (decide (id = _id doc)) as [->|Hne].
    + change (_id (applyMatch _ _ _ _ _)) with (_id doc).
      rewrite hist_snoc_eq, Hh. auto.
    + rewrite hist_snoc_ne by exact Hne. apply (inv_hist s HI).
  - change (status (applyMatch _ _ _ _ _)) with accepted.
    rewrite createdIds_snoc_accepted. apply (inv_created s HI).
Qed.

Lemma inv_afterMatchSave s q rider doc driver o :
  Inv s → tasks s !! q = Some (AwaitMatchSave rider doc driver) →
  Inv (afterMatchSave q rider doc driver o s).
Proof.
  intros HI Hq.
  pose proof (inv_task s HI _ _ Hq) as (Hst & Hh). simpl in *.
  assert (Hother : ∀ q' t, q ≠ q' → tasks s !! q' = Some t →
                           _id (doc_of t) ≠ _id doc).
  { intros q' t Hne Hq' Hid. apply Hne.
    eapply (inv_task_inj s HI); [exact Hq | exact Hq' | simpl; congruence]. }
  assert (Hgone : ∀ id r, rides s !! id = Some r →
    (∃ q' t, delete q (tasks s) !! q' = Some t ∧ _id (doc_of t) = id)
    ∨ hist (journal s) id = [searching; accepted]).
  { intros id r Hr. destruct (inv_ride s HI _ _ Hr) as (_ & _ & H3).
    destruct H3 as [(q' & t & Hq' & Ht)|Hd]; [|right; exact Hd].
    destruct (decide (q = q')) as [<-|Hne].
    - right. rewrite Hq in Hq'. inversion Hq'; subst. exact Hh.
    - left. exists q', t. split; [|exact Ht].
      apply lookup_delete_Some. auto. }
  destruct o as [|msg];
    unfold afterMatchSave, respond, emitTo, store; split; simpl;
    try apply (inv_jrnl_id s HI); try apply (inv_hist s HI);
    try apply (inv_created s HI).
  - intros q' t Hq'. apply lookup_delete_Some in Hq' as [_ Hq'].
    eapply inv_task_key; eassumption.
  - intros q1 q2 t1 t2 H1 H2.
    apply lookup_delete_Some in H1 as [_ H1].
    apply lookup_delete_Some in H2 as [_ H2].
    eapply inv_task_inj; eassumption.
  - intros q' t Hq'. apply lookup_delete_Some in Hq' as [Hne Hq'].
    pose proof (inv_task s HI _ _ Hq') as Hok.
    pose proof (Hother _ _ Hne Hq') as Hx.
    destruct t; simpl in *; try exact Hok.
    destruct Hok as (? & ? & ?). repeat split; try assumption.
    rewrite lookup_insert_ne by congruence. assumption.
  - intros id r Hr. destruct (decide (_id doc = id)) as [<-|Hne].
    + rewrite lookup_insert_eq in Hr. inversion Hr; subst. auto.
    + rewrite lookup_insert_ne in Hr by exact Hne.
      destruct (inv_ride s HI _ _ Hr) as (H1 & H2 & _).
      split; [exact H1|]. split; [exact H2|]. eapply Hgone, Hr.
  - intros q' t Hq'. apply lookup_delete_Some in Hq' as [_ Hq'].
    eapply inv_task_key; eassumption.
  - intros q1 q2 t1 t2 H1 H2.
    apply lookup_delete_Some in H1 as [_ H1].
    apply lookup_delete_Some in H2 as [_ H2].
    eapply inv_task_inj; eassumption.
  - intros q' t Hq'. apply lookup_delete_Some in Hq' as [_ Hq'].
    eapply inv_task; eassumption.
  - intros id r Hr. destruct (inv_ride s HI _ _ Hr) as (H1 & H2 & _).
    split; [exact H1|]. split; [exact H2|]. eapply Hgone, Hr.
Qed.

Lemma inv_step s i : Inv s → Inv (step s i).
Proof.
  intros HI. destruct i as [rider pickup dest|q o|q r1 r2|id o|sid|sid u|sid|ms];
    simpl.
  - apply inv_requestRide, HI.
  - destruct (tasks s !! q) as [[rider doc|rider doc due|rider doc driver]|]
      eqn:Hq; try exact HI.
    + apply inv_afterCreate; assumption.
    + apply inv_afterMatchSave; assumption.
  - destruct (tasks s !! q) as [[rider doc|rider doc due|rider doc driver]|]
      eqn:Hq; try exact HI.
    destruct (due <=? now s)%Z; [|exact HI].
    eapply inv_matchDriver; eassumption.
  - unfold getRide. destruct o as [rider driver|msg]; simpl.
    + destruct (rides s !! id); apply (inv_frame_req s); simpl; auto.
    + apply (inv_frame_req s); simpl; auto.
  - unfold onConnection. destruct (decide (sid ∈ sockets s)); [exact HI|].
    apply (inv_frame s); auto.
  - unfold joinRideRoom. destruct (connected sid (rooms s)); [|exact HI].
    apply (inv_frame s); auto.
  - apply (inv_frame s); auto.
  - apply (inv_frame s); auto.
Qed.

Lemma inv_run tr : Inv (run init tr).
Proof. apply run_ind; [exact inv_init | intros s i; apply inv_step]. Qed.

(** ** Answers and events of a request *)

Lemma filter_none {A} (P : A → Prop) `{∀ x, Decision (P x)} (l : list A) :
  (∀ x, x ∈ l → ¬ P x) → filter P l = [].
Proof.
  induction l as [|x l IH]; intros Hall; [reflexivity|].
  rewrite filter_cons_False by (apply Hall; left).
  apply IH. intros y Hy. apply Hall. by right.
Qed.

Lemma answers_snoc_eq s q c b :
  answers q (respond q c b s) = answers q s ++ [mkResponse c b].
Proof.
  unfold answers, respond; simpl. rewrite filter_app, fmap_app.
  rewrite filter_cons_True by reflexivity. reflexivity.
Qed.

Lemma answers_snoc_ne s q q' c b :
  q ≠ q' → answers q (respond q' c b s) = answers q s.
Proof.
  intros Hne. unfold answers, respond; simpl. rewrite filter_app, fmap_app.
  rewrite filter_cons_False by (simpl; congruence). simpl. apply app_nil_r.
Qed.

Lemma events_emit_ne s q q' room ev :
  q ≠ q' → events q (emitTo q' room ev s) = events q s.
Proof.
  intros Hne. unfold events, emitTo; simpl. rewrite filter_app.
  rewrite (filter_none _ (_ <$> _)); [apply app_nil_r|].
  intros d Hd.
  apply list_elem_of_fmap in Hd as (sid & -> & _). simpl. congruence.
Qed.

Lemma answers_fresh s q :
  (∀ q' r, (q', r) ∈ responses s → q' < q) → answers q s = [].
Proof.
  intros Hk. unfold answers.
  rewrite filter_none; [reflexivity|].
  intros [q' r] Hin. simpl.
  specialize (Hk _ _ Hin). lia.
Qed.

Lemma events_fresh s q :
  (∀ q' sid ev, (q', sid, ev) ∈ delivered s → q' < q) → events q s = [].
Proof.
  intros Hk. unfold events. apply filter_none.
  intros [[q' sid] ev] Hin. simpl.
  specialize (Hk _ _ _ Hin). lia.
Qed.

Lemma keys_step s i : Inv s → keys_ok s → keys_ok (step s i).
Proof.
  intros HI [Hr Hd].
  assert (Hr' : ∀ q r, (q, r) ∈ responses s → q < S (nextReq s))
    by (intros q r Hin; specialize (Hr _ _ Hin); lia).
  assert (Hd' : ∀ q sid ev, (q, sid, ev) ∈ delivered s → q < S (nextReq s))
    by (intros q sid ev Hin; specialize (Hd _ _ _ Hin); lia).
  destruct i as [rider pickup dest|q o|q r1 r2|id o|sid|sid u|sid|ms];
    simpl; try (split; assumption).
  - unfold requestRide.
    destruct (negb (truthy rider) || negb (truthy pickup) || negb (truthy dest));
      split; simpl; try assumption.
    intros q r Hin. apply elem_of_app in Hin as [Hin|Hin]; [eauto|].
    apply list_elem_of_singleton in Hin. inversion Hin; subst. lia.
  - destruct (tasks s !! q) as [[rider doc|rider doc due|rider doc driver]|]
      eqn:Hq; try (split; assumption);
      pose proof (inv_task_key s HI _ _ Hq) as Hlt;
      destruct o as [|msg]; split; simpl; try assumption.
    + intros q' r Hin. apply elem_of_app in Hin as [Hin|Hin]; [eauto|].
      apply list_elem_of_singleton in Hin. inversion Hin; subst. exact Hlt.
    + intros q' r Hin. apply elem_of_app in Hin as [Hin|Hin]; [eauto|].
      apply list_elem_of_singleton in Hin. inversion Hin; subst. exact Hlt.
    + intros q' sid ev Hin. apply elem_of_app in Hin as [Hin|Hin]; [eauto|].
      apply list_elem_of_fmap in Hin as (x & Hx & _).
      inversion Hx; subst. exact Hlt.
  - destruct (tasks s !! q) as [[rider doc|rider doc due|rider doc driver]|];
      try (split; assumption).
    destruct (due <=? now s)%Z; split; assumption.
  - unfold getRide. destruct o as [rider driver|msg]; simpl.
    + destruct (rides s !! id); split; simpl; try assumption;
        intros q x Hin; (apply elem_of_app in Hin as [Hin|Hin]; [eauto|]);
        apply list_elem_of_singleton in Hin; inversion Hin; subst; lia.
    + split; simpl; try assumption.
      intros q r Hin. apply elem_of_app in Hin as [Hin|Hin]; [eauto|].
      apply list_elem_of_singleton in Hin. inversion Hin; subst. lia.
  - unfold onConnection. destruct (decide (sid ∈ sockets s)); split; assumption.
  - unfold joinRideRoom. destruct (connected sid (rooms s)); split; assumption.
Qed.

Lemma keys_run tr : keys_ok (run init tr).
Proof.
  induction tr as [|i tr IH] using rev_ind.
  - split; simpl; intros; by apply elem_of_nil in H.
  - rewrite run_snoc. apply keys_step; [apply inv_run | exact IH].
Qed.

(** A request without a suspended handler gets nothing any more. *)
Lemma settled_step s i q :
  q < nextReq s → tasks s !! q = None →
  q < nextReq (step s i) ∧ tasks (step s i) !! q = None
  ∧ answers q (step s i) = answers q s ∧ events q (step s i) = events q s.
Proof.
  intros Hlt Hnone.
  destruct i as [rider pickup dest|q' o|q' r1 r2|id o|sid|sid u|sid|ms];
    simpl; try (repeat split; assumption).
  - unfold requestRide.
    destruct (negb (truthy rider) || negb (truthy pickup) || negb (truthy dest)).
    + rewrite answers_snoc_ne by lia. simpl. repeat split; auto.
    + simpl. rewrite lookup_insert_ne by lia. repeat split; auto.
  - destruct (tasks s !! q') as [[rider doc|rider doc due|rider doc driver]|]
      eqn:Hq'; try (repeat split; assumption);
      (assert (Hne : q ≠ q') by congruence);
      destruct o as [|msg]; simpl.
    + rewrite lookup_insert_ne by congruence. repeat split; auto.
    + rewrite answers_snoc_ne by exact Hne. simpl.
      rewrite lookup_delete_ne by congruence. repeat split; auto.
    + rewrite answers_snoc_ne by exact Hne.
      unfold respond; simpl.
      change (events q (set_responses _ ?x)) with (events q x).
      rewrite events_emit_ne by exact Hne. simpl.
      rewrite lookup_delete_ne by congruence. repeat split; auto.
    + rewrite lookup_delete_ne by congruence. repeat split; auto.
  - destruct (tasks s !! q') as [[rider doc|rider doc due|rider doc driver]|]
      eqn:Hq'; try (repeat split; assumption).
    destruct (due <=? now s)%Z; [|repeat split; assumption].
    simpl. rewrite lookup_insert_ne by congruence. repeat split; auto.
  - unfold getRide. destruct o as [rider driver|msg]; simpl.
    + destruct (rides s !! id); rewrite answers_snoc_ne by lia; simpl;
        repeat split; auto.
    + rewrite answers_snoc_ne by lia. simpl. repeat split; auto.
  - unfold onConnection. destruct (decide (sid ∈ sockets s));
      repeat split; assumption.
  - unfold joinRideRoom. destruct (connected sid (rooms s));
      repeat split; assumption.
Qed.

Lemma settled_run tr : ∀ s q,
  q < nextReq s → tasks s !! q = None →
  q < nextReq (run s tr) ∧ tasks (run s tr) !! q = None
  ∧ answers q (run s tr) = answers q s ∧ events q (run s tr) = events q s.
Proof.
  induction tr as [|i tr IH]; intros s q Hlt Hnone; [by repeat split|].
  rewrite run_cons.
  destruct (settled_step s i q Hlt Hnone) as (H1 & H2 & H3 & H4).
  destruct (IH (step s i) q H1 H2) as (H5 & H6 & H7 & H8).
  repeat split; congruence.
Qed.

(** ** The request handler *)

Lemma absent_falsy v : absent v → truthy v = false.
Proof. intros [->| ->]; reflexivity. Qed.

Lemma requestRide_invalid s rider pickup dest :
  truthy rider = false ∨ truthy pickup = false ∨ truthy dest = false →
  step s (PostRideRequest rider pickup dest)
  = respond (nextReq s) 400 (JMessage "Missing required ride details.")
      (set_nextReq (S (nextReq s)) s).
Proof.
  intros H. simpl. unfold requestRide.
  destruct H as [-> | [-> | ->]]; simpl; rewrite ?orb_true_r; reflexivity.
Qed.

(** C5.  At any point of any run, a request in which [riderId],
    [pickupLocation] or [destination] is missing or empty is answered in
    the very step of its arrival with status 400; that step creates no
    ride (the collection, the suspended handlers, the journal and the
    identifier generator are as before) and emits nothing; and however the
    run goes on, no event is ever emitted for that request and the 400
    stays its only answer. *)
Theorem invalid_request_rejected
    (tr : list Input) (rider pickup dest : JsVal) :
  absent rider ∨ absent pickup ∨ absent dest →
  let s := run init tr in
  let q := nextReq s in
  let s1 := step s (PostRideRequest rider pickup dest) in
  responses s1
  = responses s
    ++ [(q, mkResponse 400 (JMessage "Missing required ride details."))]
  ∧ rides s1 = rides s ∧ tasks s1 = tasks s ∧ journal s1 = journal s
  ∧ nextObjectId s1 = nextObjectId s ∧ delivered s1 = delivered s
  ∧ ∀ tr', let s2 := run s1 tr' in
      events q s2 = []
      ∧ answers q s2
        = [mkResponse 400 (JMessage "Missing required ride details.")]
      ∧ tasks s2 !! q = None.
Proof.
  intros Hbad s q s1.
  assert (Hf : truthy rider = false ∨ truthy pickup = false
               ∨ truthy dest = false).
  { destruct Hbad as [H|[H|H]]; apply absent_falsy in H; auto. }
  assert (E : s1 = respond q 400 (JMessage "Missing required ride details.")
                     (set_nextReq (S q) s))
    by (apply requestRide_invalid, Hf).
  rewrite E. simpl. do 6 (split; [reflexivity|]).
  intros tr'.
  pose proof (inv_run tr) as HI. pose proof (keys_run tr) as [Hkr Hkd].
  fold s in HI, Hkr, Hkd.
  assert (Hnone : tasks s !! q = None).
  { destruct (tasks s !! q) as [t|] eqn:Ht; [|reflexivity].
    pose proof (inv_task_key s HI _ _ Ht). unfold q in *. lia. }
  destruct (settled_run tr'
              (respond q 400 (JMessage "Missing required ride details.")
                 (set_nextReq (S q) s)) q) as (_ & H2 & H3 & H4).
  { simpl. lia. }
  { exact Hnone. }
  rewrite H3, H4. split; [|split; [|exact H2]].
  - apply events_fresh. exact Hkd.
  - rewrite answers_snoc_eq.
    change (answers q (set_nextReq (S q) s)) with (answers q s).
    rewrite answers_fresh; [reflexivity | exact Hkr].
Qed.

Lemma invalid_request_rejected_witness :
  let s := run init scenario1_open in
  let s1 :=
    step s (PostRideRequest (VStr "u1") (VStr EmptyString) (VStr "B")) in
  responses s1
  = responses s
    ++ [(1, mkResponse 400 (JMessage "Missing required ride details."))]
  ∧ rides s1 = rides s ∧ tasks s1 = tasks s ∧ journal s1 = journal s
  ∧ nextObjectId s1 = nextObjectId s ∧ delivered s1 = delivered s
  ∧ ∀ tr', let s2 := run s1 tr' in
      events 1 s2 = []
      ∧ answers 1 s2
        = [mkResponse 400 (JMessage "Missing required ride details.")]
      ∧ tasks s2 !! 1 = None.
Proof.
  apply (invalid_request_rejected scenario1_open
           (VStr "u1") (VStr EmptyString) (VStr "B")).
  right; left; right; reflexivity.
Defined.

(** C6.  At any point of any run, a request whose three fields are
    non-empty creates a document with status [searching], the fields of
    the request, the current time as [createdAt], and an identifier that
    no earlier document got and that is not in the collection; the
    identifiers handed out so far, this one included, are pairwise
    different; and once the save resolves the document is in the
    collection under that identifier. *)
Theorem create_searching_with_fresh_id
    (tr : list Input) (rider pickup dest : JsVal) :
  truthy rider = true → truthy pickup = true → truthy dest = true →
  let s := run init tr in
  let q := nextReq s in
  let s1 := step s (PostRideRequest rider pickup dest) in
  ∃ doc,
    tasks s1 !! q = Some (AwaitCreate rider doc)
    ∧ status doc = searching
    ∧ riderId doc = rider ∧ pickupLocation doc = pickup
    ∧ destination doc = dest
    ∧ createdAt doc = now s
    ∧ (_id doc ∉ createdIds (journal s))
    ∧ rides s !! _id doc = None
    ∧ createdIds (journal s1) = createdIds (journal s) ++ [_id doc]
    ∧ NoDup (createdIds (journal s1))
    ∧ rides (step s1 (SaveSettles q Saved)) !! _id doc = Some doc.
Proof.
  intros Hr Hp Hd s q s1.
  pose proof (inv_run tr) as HI. fold s in HI.
  pose proof (inv_run (tr ++ [PostRideRequest rider pickup dest])) as HI1.
  rewrite run_snoc in HI1. fold s s1 in HI1.
  destruct (inv_next_fresh s HI) as [Hfresh Hnone].
  assert (E : s1 = set_tasks
                (<[q := AwaitCreate rider
                          (newRide (nextObjectId s) (now s) rider pickup dest)]>
                   (tasks s))
                (set_journal (journal s ++ [(nextObjectId s, searching)])
                   (set_nextObjectId (N.succ (nextObjectId s))
                      (set_nextReq (S q) s)))).
  { unfold s1. simpl. unfold requestRide. rewrite Hr, Hp, Hd. reflexivity. }
  exists (newRide (nextObjectId s) (now s) rider pickup dest).
  simpl. split; [rewrite E; simpl; apply lookup_insert_eq|].
  do 5 (split; [reflexivity|]).
  split.
  { intros Hin. apply elem_of_createdIds in Hin.
    pose proof (inv_jrnl_id s HI _ _ Hin). lia. }
  split; [exact Hnone|].
  split; [rewrite E; simpl; apply createdIds_snoc_searching|].
  split; [apply (inv_created s1 HI1)|].
  rewrite E. simpl. rewrite lookup_insert_eq. simpl.
  apply lookup_insert_eq.
Qed.

Lemma create_searching_with_fresh_id_witness :
  let s := run init (scenario1_open ++ scenario1_match) in
  let q := nextReq s in
  let s1 := step s (PostRideRequest (VStr "u1") (VStr "A") (VStr "B")) in
  ∃ doc,
    tasks s1 !! q = Some (AwaitCreate (VStr "u1") doc)
    ∧ status doc = searching
    ∧ riderId doc = VStr "u1" ∧ pickupLocation doc = VStr "A"
    ∧ destination doc = VStr "B"
    ∧ createdAt doc = now s
    ∧ (_id doc ∉ createdIds (journal s))
    ∧ rides s !! _id doc = None
    ∧ createdIds (journal s1) = createdIds (journal s) ++ [_id doc]
    ∧ NoDup (createdIds (journal s1))
    ∧ rides (step s1 (SaveSettles q Saved)) !! _id doc = Some doc.
Proof.
  exact (create_searching_with_fresh_id (scenario1_open ++ scenario1_match)
           (VStr "u1") (VStr "A") (VStr "B") eq_refl eq_refl eq_refl).
Defined.

(** ** The status query *)

(** Once the parameter has been cast and when the query resolves, the
    handler answers 200 with the stored ride, its two references
    populated, if a ride is stored under the identifier, and 404 "Ride
    not found" if none is. *)
Lemma status_query_found_or_404
    (s : State) (id : ObjectId) (rider driver : option User) :
  let s1 := step s (GetRide id (FindResolved rider driver)) in
  (∀ r, rides s !! id = Some r →
        responses s1
        = responses s ++ [(nextReq s, mkResponse 200 (JRide r rider driver))])
  ∧ (rides s !! id = None →
        responses s1
        = responses s
          ++ [(nextReq s, mkResponse 404 (JMessage "Ride not found"))]).
Proof.
  simpl. unfold getRide. simpl. split.
  - intros r ->. reflexivity.
  - intros ->. reflexivity.
Qed.

(** ** The life of a ride *)


(** ** No acknowledgement before the match *)

Lemma answer_status_step s i :
  Inv s →
  (∀ q c a, (q, mkResponse c (JRideAnswer a)) ∈ responses s →
            c = 200%Z ∧ ans_status a = accepted) →
  ∀ q c a, (q, mkResponse c (JRideAnswer a)) ∈ responses (step s i) →
           c = 200%Z ∧ ans_status a = accepted.
Proof.
  intros HI Hold q c a.
  assert (Hsnoc : ∀ q' c' b,
            (∀ a', b = JRideAnswer a' →
                   c' = 200%Z ∧ ans_status a' = accepted) →
            (q, mkResponse c (JRideAnswer a))
              ∈ responses s ++ [(q', mkResponse c' b)] →
            c = 200%Z ∧ ans_status a = accepted).
  { intros q' c' b Hb Hin. apply elem_of_app in Hin as [Hin|Hin]; [eauto|].
    apply list_elem_of_singleton in Hin. inversion Hin; subst. eauto. }
  destruct i as [rider pickup dest|q' o|q' r1 r2|id o|sid|sid u|sid|ms];
    simpl; try apply Hold.
  - unfold requestRide.
    destruct (negb (truthy rider) || negb (truthy pickup) || negb (truthy dest));
      simpl; [|apply Hold].
    apply Hsnoc. discriminate.
  - destruct (tasks s !! q') as [[rider doc|rider doc due|rider doc driver]|]
      eqn:Hq; try apply Hold;
      pose proof (inv_task s HI _ _ Hq) as Hok; simpl in Hok;
      destruct o as [|msg]; simpl; try apply Hold.
    + apply Hsnoc. discriminate.
    + apply Hsnoc. intros a' E. inversion E; subst. simpl. tauto.
  - destruct (tasks s !! q') as [[rider doc|rider doc due|rider doc driver]|];
      try apply Hold.
    destruct (due <=? now s)%Z; apply Hold.
  - unfold getRide. simpl.
    destruct o; [destruct (rides s !! id)|]; simpl; apply Hsnoc; discriminate.
  - unfold onConnection. destruct (decide (sid ∈ sockets s)); apply Hold.
  - unfold joinRideRoom. destruct (connected sid (rooms s)); apply Hold.
Qed.

(** C1.  What the code does instead: the step in which a valid request
    arrives sends no answer; in no run does an answer to a ride request
    carry the status [searching], every such answer is the 200 of the
    timer callback with status [accepted]; and in the first scenario the
    request is unanswered after its save and still unanswered 2999 ms
    later, and gets its only answer when the match has been saved. *)
Theorem answer_waits_for_the_match :
  (∀ s rider pickup dest,
     truthy rider = true → truthy pickup = true → truthy dest = true →
     responses (step s (PostRideRequest rider pickup dest)) = responses s)
  ∧ (∀ tr q c a,
       (q, mkResponse c (JRideAnswer a)) ∈ responses (run init tr) →
       c = 200%Z ∧ ans_status a = accepted)
  ∧ answers 0 (run init scenario1_open) = []
  ∧ answers 0 (run init (scenario1_open
                          ++ [Tick 2999; TimerFires 0 (1 # 3) (1 # 2)])) = []
  ∧ answers 0 (run init (scenario1_open ++ scenario1_match))
    = [mkResponse 200
         (JRideAnswer
            (rideAnswer
               (applyMatch (newRide 0 0 (VStr "u1") (VStr "A") (VStr "B")) 1
                  (fareText (1 # 3)) (etaText (1 # 2)) 3000)
               (mockDriver 1)))].
Proof.
  split; [|split; [|split; [|split]]].
  - intros s rider pickup dest Hr Hp Hd. simpl. unfold requestRide.
    rewrite Hr, Hp, Hd. reflexivity.
  - intros tr. induction tr as [|i tr IH] using rev_ind.
    + intros q c a Hin. by apply elem_of_nil in Hin.
    + rewrite run_snoc. apply answer_status_step; [apply inv_run | exact IH].
  - vm_compute; reflexivity.
  - vm_compute; reflexivity.
  - vm_compute; reflexivity.
Qed.

Lemma answer_waits_for_the_match_witness :
  responses (step init (PostRideRequest (VStr "u1") (VStr "A") (VStr "B")))
  = responses init.
Proof.
  exact (proj1 answer_waits_for_the_match init
           (VStr "u1") (VStr "A") (VStr "B") eq_refl eq_refl eq_refl).
Defined.

(** ** The form *)

(** C10.  When the pickup location or the destination is empty,
    [handleRequestRide] sets the error text and returns: it does not wait
    for the delay, and the two inputs, [isRequesting], [driverFound] and
    [rideDetails] are as before. *)
Theorem handleRequestRide_empty_field (s : Frontend.AppState) :
  Frontend.pickupLocation s = EmptyString
  ∨ Frontend.destination s = EmptyString →
  let (s', k) := Frontend.handleRequestRide s in
  k = Frontend.Returned
  ∧ Frontend.error s' = "Please enter both pickup location and destination."
  ∧ Frontend.isRequesting s' = Frontend.isRequesting s
  ∧ Frontend.driverFound s' = Frontend.driverFound s
  ∧ Frontend.rideDetails s' = Frontend.rideDetails s
  ∧ Frontend.pickupLocation s' = Frontend.pickupLocation s
  ∧ Frontend.destination s' = Frontend.destination s.
Proof.
  destruct s as [p d ir df rd e]. simpl. intros H.
  unfold Frontend.handleRequestRide, truthyStr. simpl.
  destruct H as [-> | ->]; simpl; rewrite ?orb_true_r; simpl;
    repeat split; reflexivity.
Qed.

Lemma handleRequestRide_empty_field_witness :
  let s := Frontend.mkApp "A" EmptyString true true
             (Some (Frontend.mockRideData 0)) EmptyString in
  let (s', k) := Frontend.handleRequestRide s in
  k = Frontend.Returned
  ∧ Frontend.error s' = "Please enter both pickup location and destination."
  ∧ Frontend.isRequesting s' = Frontend.isRequesting s
  ∧ Frontend.driverFound s' = Frontend.driverFound s
  ∧ Frontend.rideDetails s' = Frontend.rideDetails s
  ∧ Frontend.pickupLocation s' = Frontend.pickupLocation s
  ∧ Frontend.destination s' = Frontend.destination s.
Proof.
  exact (handleRequestRide_empty_field
           (Frontend.mkApp "A" EmptyString true true
              (Some (Frontend.mockRideData 0)) EmptyString)
           (or_intror eq_refl)).
Defined.

(** ** Rooms *)

Lemma sameValueZero_trans a b c :
  sameValueZero a b = true → sameValueZero b c = true →
  sameValueZero a c = true.
Proof.
  destruct a, b; simpl; try discriminate; destruct c; simpl;
    try discriminate; try reflexivity.
  - intros H1 H2. apply Bool.eqb_prop in H1, H2. subst.
    apply Bool.eqb_reflx.
  - intros H1 H2. apply Qeq_bool_iff in H1, H2. apply Qeq_bool_iff.
    by rewrite H1.
  - intros H1 H2. apply String.eqb_eq in H1, H2. subst. apply String.eqb_refl.
Qed.

Lemma in_room_spec sid room rs :
  in_room sid room rs = true
  ↔ ∃ r, (sid, r) ∈ rs ∧ sameValueZero r room = true.
Proof.
  unfold in_room. rewrite existsb_exists. split.
  - intros ([sid' r] & Hin & H). simpl in H.
    apply andb_true_iff in H as [H1 H2]. apply String.eqb_eq in H1. subst.
    exists r. split; [by apply list_elem_of_In | exact H2].
  - intros (r & Hin & H). exists (sid, r).
    split; [by apply list_elem_of_In|]. simpl.
    rewrite String.eqb_refl. exact H.
Qed.

Lemma connected_spec sid rs :
  connected sid rs = true ↔ ∃ r, (sid, r) ∈ rs.
Proof.
  unfold connected. rewrite existsb_exists. split.
  - intros ([sid' r] & Hin & H). simpl in H. apply String.eqb_eq in H. subst.
    exists r. by apply list_elem_of_In.
  - intros (r & Hin). exists (sid, r).
    split; [by apply list_elem_of_In|]. simpl. apply String.eqb_refl.
Qed.

Lemma elem_of_members sid room rs :
  sid ∈ members room rs ↔ in_room sid room rs = true.
Proof.
  rewrite in_room_spec. unfold members. rewrite list_elem_of_fmap. split.
  - intros ([sid' r] & -> & Hin). apply list_elem_of_In, filter_In in Hin.
    destruct Hin as [Hin H]. exists r. split; [by apply list_elem_of_In|exact H].
  - intros (r & Hin & H). exists (sid, r). split; [reflexivity|].
    apply list_elem_of_In, filter_In. split; [by apply list_elem_of_In|exact H].
Qed.

Lemma elem_of_join p sid room rs : p ∈ rs → p ∈ join sid room rs.
Proof.
  unfold join. destruct (in_room sid room rs); [auto|].
  intros H. apply elem_of_app. by left.
Qed.

Lemma elem_of_join_inv p sid room rs :
  p ∈ join sid room rs → p ∈ rs ∨ p = (sid, room).
Proof.
  unfold join. destruct (in_room sid room rs); [auto|].
  intros H. apply elem_of_app in H as [H|H]; [auto|].
  apply list_elem_of_singleton in H. auto.
Qed.

Lemma in_room_join sid userId room rs :
  sameValueZero userId room = true →
  in_room sid room (join sid userId rs) = true.
Proof.
  intros Hsame. unfold join. destruct (in_room sid userId rs) eqn:E.
  - apply in_room_spec in E as (r & Hin & H). apply in_room_spec.
    exists r. split; [exact Hin|]. eapply sameValueZero_trans; eassumption.
  - apply in_room_spec. exists userId. split; [|exact Hsame].
    apply elem_of_app. right. left.
Qed.

Lemma elem_of_leaveAll sid' p rs :
  p ∈ leaveAll sid' rs ↔ p ∈ rs ∧ p.1 ≠ sid'.
Proof.
  unfold leaveAll. rewrite list_elem_of_In, filter_In, <- list_elem_of_In.
  rewrite negb_true_iff, String.eqb_neq. reflexivity.
Qed.

(** A socket stays in a room until it disconnects. *)
Lemma in_room_step s i sid room :
  in_room sid room (rooms s) = true → i ≠ Disconnect sid →
  in_room sid room (rooms (step s i)) = true.
Proof.
  intros Hin Hne.
  destruct i as [rider pickup dest|q o|q r1 r2|id o|sid'|sid' u|sid'|ms];
    simpl; try exact Hin.
  - unfold requestRide.
    destruct (negb (truthy rider) || negb (truthy pickup) || negb (truthy dest));
      exact Hin.
  - destruct (tasks s !! q) as [[rider doc|rider doc due|rider doc driver]|];
      try exact Hin; destruct o; exact Hin.
  - destruct (tasks s !! q) as [[rider doc|rider doc due|rider doc driver]|];
      try exact Hin.
    destruct (due <=? now s)%Z; exact Hin.
  - unfold getRide. simpl.
    destruct o; [destruct (rides s !! id)|]; exact Hin.
  - unfold onConnection. destruct (decide (sid' ∈ sockets s)); [exact Hin|].
    simpl. apply in_room_spec in Hin as (r & Hr & H). apply in_room_spec.
    exists r. split; [|exact H]. apply elem_of_app. by left.
  - unfold joinRideRoom. destruct (connected sid' (rooms s)); [|exact Hin].
    simpl. apply in_room_spec in Hin as (r & Hr & H). apply in_room_spec.
    exists r. split; [|exact H]. by apply elem_of_join.
  - apply in_room_spec in Hin as (r & Hr & H). apply in_room_spec.
    exists r. split; [|exact H]. apply elem_of_leaveAll.
    split; [exact Hr|]. simpl. congruence.
Qed.

Lemma in_room_run tr : ∀ s sid room,
  in_room sid room (rooms s) = true → Disconnect sid ∉ tr →
  in_room sid room (rooms (run s tr)) = true.
Proof.
  induction tr as [|i tr IH]; intros s sid room Hin Hno; [exact Hin|].
  rewrite run_cons. apply IH.
  - apply in_room_step; [exact Hin|]. intros ->. apply Hno. left.
  - intros H. apply Hno. by right.
Qed.

(** A socket that has disconnected is in no room again. *)
Lemma left_step s i sid :
  sid ∈ sockets s → connected sid (rooms s) = false →
  sid ∈ sockets (step s i) ∧ connected sid (rooms (step s i)) = false.
Proof.
  intros Hs Hc.
  assert (Hno : ∀ r, (sid, r) ∉ rooms s).
  { intros r Hin. assert (connected sid (rooms s) = true)
      by (apply connected_spec; eauto). congruence. }
  assert (Hback : ∀ rs, (∀ r, (sid, r) ∉ rs) → connected sid rs = false).
  { intros rs H. destruct (connected sid rs) eqn:E; [|reflexivity].
    apply connected_spec in E as (r & Hr). by apply H in Hr. }
  destruct i as [rider pickup dest|q o|q r1 r2|id o|sid'|sid' u|sid'|ms];
    simpl; try (split; assumption).
  - unfold requestRide.
    destruct (negb (truthy rider) || negb (truthy pickup) || negb (truthy dest));
      split; assumption.
  - destruct (tasks s !! q) as [[rider doc|rider doc due|rider doc driver]|];
      try (split; assumption); destruct o; split; assumption.
  - destruct (tasks s !! q) as [[rider doc|rider doc due|rider doc driver]|];
      try (split; assumption).
    destruct (due <=? now s)%Z; split; assumption.
  - unfold getRide. simpl.
    destruct o; [destruct (rides s !! id)|]; split; assumption.
  - unfold onConnection. destruct (decide (sid' ∈ sockets s)) as [|Hn];
      [split; assumption|].
    simpl. split; [set_solver|]. apply Hback. intros r Hin.
    apply elem_of_app in Hin as [Hin|Hin]; [by apply Hno in Hin|].
    apply list_elem_of_singleton in Hin. inversion Hin; subst. contradiction.
  - unfold joinRideRoom. destruct (connected sid' (rooms s)) eqn:E;
      [|split; assumption].
    simpl. split; [exact Hs|]. apply Hback. intros r Hin.
    apply elem_of_join_inv in Hin as [Hin|Hin]; [by apply Hno in Hin|].
    inversion Hin; subst. congruence.
  - split; [exact Hs|]. apply Hback. intros r Hin.
    apply elem_of_leaveAll in Hin as [Hin _]. by apply Hno in Hin.
Qed.

Lemma left_run tr : ∀ s sid,
  sid ∈ sockets s → connected sid (rooms s) = false →
  connected sid (rooms (run s tr)) = false.
Proof.
  induction tr as [|i tr IH]; intros s sid Hs Hc; [exact Hc|].
  rewrite run_cons. destruct (left_step s i sid Hs Hc) as [H1 H2].
  apply IH; assumption.
Qed.

Lemma joined_in_room tr sid room :
  joined tr sid room → in_room sid room (rooms (run init tr)) = true.
Proof.
  intros (tr1 & userId & tr2 & -> & Hc & Hsame & Hno).
  rewrite run_app, run_cons. apply in_room_run; [|exact Hno].
  simpl. unfold joinRideRoom. rewrite Hc. simpl.
  apply in_room_join, Hsame.
Qed.

Lemma left_not_connected tr sid :
  left tr sid → connected sid (rooms (run init tr)) = false.
Proof.
  intros (tr1 & tr2 & -> & Hs).
  rewrite run_app, run_cons. apply left_run; simpl; [exact Hs|].
  destruct (connected sid (leaveAll sid (rooms (run init tr1)))) eqn:E;
    [|reflexivity].
  apply connected_spec in E as (r & Hr).
  apply elem_of_leaveAll in Hr as [_ Hr]. simpl in Hr. congruence.
Qed.

Lemma in_room_connected sid room rs :
  in_room sid room rs = true → connected sid rs = true.
Proof.
  rewrite in_room_spec, connected_spec. intros (r & Hr & _). eauto.
Qed.

(** C7.  When the save of a match resolves for a ride requested by
    [rider], the events of that step all carry the same payload, the one
    built from the matched document, and go to sockets that are in the
    room [rider]: every socket that has joined that room and has not
    disconnected gets it, and a socket that has disconnected gets none. *)
Theorem update_goes_to_the_joined_channels
    (tr : list Input) (q : nat) (rider : JsVal) (doc : Ride)
    (driver : MockDriver) :
  let s := run init tr in
  tasks s !! q = Some (AwaitMatchSave rider doc driver) →
  let s1 := step s (SaveSettles q Saved) in
  let ev := rideUpdate doc driver in
  ∃ D, delivered s1 = delivered s ++ D
     ∧ (∀ sid, joined tr sid rider → (q, sid, ev) ∈ D)
     ∧ (∀ sid, left tr sid → ∀ q' ev', (q', sid, ev') ∉ D)
     ∧ (∀ q' sid ev', (q', sid, ev') ∈ D →
          q' = q ∧ ev' = ev ∧ in_room sid rider (rooms s) = true).
Proof.
  intros s Hq s1 ev.
  exists ((λ sid, (q, sid, ev)) <$> members rider (rooms s)).
  assert (Hin : ∀ q' sid ev',
            (q', sid, ev') ∈ (λ sid, (q, sid, ev)) <$> members rider (rooms s)
            → q' = q ∧ ev' = ev ∧ in_room sid rider (rooms s) = true).
  { intros q' sid ev' H. apply list_elem_of_fmap in H as (x & E & Hx).
    inversion E; subst. apply elem_of_members in Hx. auto. }
  split; [|split; [|split]].
  - unfold s1. simpl. rewrite Hq. reflexivity.
  - intros sid Hj. apply list_elem_of_fmap. exists sid.
    split; [reflexivity|]. apply elem_of_members, joined_in_room, Hj.
  - intros sid Hl q' ev' H. apply Hin in H as (_ & _ & H).
    apply in_room_connected in H.
    pose proof (left_not_connected tr sid Hl) as Hc. fold s in Hc. congruence.
  - exact Hin.
Qed.

Lemma update_goes_to_the_joined_channels_witness :
  let s := run init scenario3 in
  let doc := applyMatch (newRide 0 0 (VStr "u2") (VStr "A") (VStr "B")) 1
               (fareText (1 # 3)) (etaText (1 # 2)) 3000 in
  let ev := rideUpdate doc (mockDriver 1) in
  tasks s !! 0 = Some (AwaitMatchSave (VStr "u2") doc (mockDriver 1))
  ∧ ∃ D, delivered (step s (SaveSettles 0 Saved)) = delivered s ++ D
       ∧ (0, "a", ev) ∈ D ∧ (0, "b", ev) ∈ D
       ∧ ∀ q' ev', (q', "c", ev') ∉ D.
Proof.
  intros s doc ev.
  assert (Hq : tasks s !! 0
               = Some (AwaitMatchSave (VStr "u2") doc (mockDriver 1)))
    by (vm_compute; reflexivity).
  split; [exact Hq|].
  destruct (update_goes_to_the_joined_channels scenario3 0 (VStr "u2") doc
              (mockDriver 1) Hq) as (D & HD & Hj & Hl & _).
  exists D. split; [exact HD|].
  assert (Hnot : ∀ sid (l : list Input),
            Forall (λ i, match i with Disconnect x => x ≠ sid | _ => True end) l
            → Disconnect sid ∉ l).
  { intros sid l Hall Hin. rewrite Forall_forall in Hall.
    apply (Hall _ Hin). reflexivity. }
  split; [|split].
  - apply Hj. exists [Connect "a"], (VStr "u2"), (skipn 2 scenario3).
    split; [reflexivity|]. split; [reflexivity|]. split; [reflexivity|].
    apply Hnot. simpl. repeat constructor; discriminate.
  - apply Hj. exists (firstn 3 scenario3), (VStr "u2"), (skipn 4 scenario3).
    split; [reflexivity|]. split; [reflexivity|]. split; [reflexivity|].
    apply Hnot. simpl. repeat constructor; discriminate.
  - apply Hl. exists (firstn 8 scenario3), (skipn 9 scenario3).
    split; [reflexivity|]. vm_compute. set_solver.
Defined.

(** * Further properties of the backend *)

(** The cases of one turn of the event loop. *)
Ltac step_cases s i :=
  let rider := fresh "rider" in let pickup := fresh "pickup" in
  let dest := fresh "dest" in let q0 := fresh "q0" in
  let o := fresh "o" in let r1 := fresh "r1" in let r2 := fresh "r2" in
  let id0 := fresh "id0" in let sid0 := fresh "sid0" in
  let u0 := fresh "u0" in let ms := fresh "ms" in
  let doc := fresh "doc" in let due := fresh "due" in
  let driver := fresh "driver" in let msg := fresh "msg" in
  let Hq0 := fresh "Hq0" in let Hdue := fresh "Hdue" in
  let Hconn := fresh "Hconn" in let Hnew := fresh "Hnew" in
  let Hfind := fresh "Hfind" in let Hvalid := fresh "Hvalid" in
  destruct i as [rider pickup dest|q0 o|q0 r1 r2|id0 o|sid0|sid0 u0|sid0|ms];
  simpl;
  [ unfold requestRide;
    destruct (negb (truthy rider) || negb (truthy pickup)
              || negb (truthy dest)) eqn:Hvalid; simpl
  | destruct (tasks s !! q0) as [[rider doc|rider doc due|rider doc driver]|]
      eqn:Hq0;
    [ destruct o as [|msg]; simpl | | destruct o as [|msg]; simpl | ]
  | destruct (tasks s !! q0) as [[rider doc|rider doc due|rider doc driver]|]
      eqn:Hq0;
    [ | destruct (due <=? now s)%Z eqn:Hdue; simpl | | ]
  | unfold getRide; simpl; destruct o as [rider driver|msg];
    [ destruct (rides s !! id0) eqn:Hfind | ]; simpl
  | unfold onConnection; destruct (decide (sid0 ∈ sockets s)) as [|Hnew];
    simpl
  | unfold joinRideRoom; destruct (connected sid0 (rooms s)) eqn:Hconn; simpl
  | | ].

(** A ride that no handler holds is touched by no step. *)
Lemma orphan_step s i id :
  Inv s → orphan id s → (id < nextObjectId s)%N →
  orphan id (step s i) ∧ (id < nextObjectId (step s i))%N
  ∧ rides (step s i) !! id = rides s !! id.
Proof.
  intros HI Ho Hlt.
  assert (Hins : ∀ q t, _id (doc_of t) ≠ id → ∀ q' t',
            <[q := t]> (tasks s) !! q' = Some t' → _id (doc_of t') ≠ id).
  { intros q t Hne q' t' Hq'.
    destruct (decide (q = q')) as [<-|Hn].
    - rewrite lookup_insert_eq in Hq'. inversion Hq'; subst. exact Hne.
    - rewrite lookup_insert_ne in Hq' by exact Hn. eapply Ho, Hq'. }
  assert (Hdel : ∀ q q' t',
            delete q (tasks s) !! q' = Some t' → _id (doc_of t') ≠ id).
  { intros q q' t' Hq'.
    apply lookup_delete_Some in Hq' as [_ Hq']. eapply Ho, Hq'. }
  step_cases s i; try (split; [exact Ho | split; [exact Hlt | reflexivity]]).
  - split; [|split; [lia|reflexivity]].
    intros q' t' Hq'. simpl in Hq'. eapply Hins; [|exact Hq']. simpl. lia.
  - pose proof (Ho _ _ Hq0) as Hne. simpl in Hne.
    split; [|split; [exact Hlt|apply lookup_insert_ne, Hne]].
    intros q' t' Hq'. simpl in Hq'. eapply Hins; [|exact Hq']. exact Hne.
  - split; [|split; [exact Hlt|reflexivity]].
    intros q' t' Hq'. simpl in Hq'. eapply Hdel, Hq'.
  - pose proof (Ho _ _ Hq0) as Hne. simpl in Hne.
    split; [|split; [exact Hlt|apply lookup_insert_ne, Hne]].
    intros q' t' Hq'. simpl in Hq'. eapply Hdel, Hq'.
  - split; [|split; [exact Hlt|reflexivity]].
    intros q' t' Hq'. simpl in Hq'. eapply Hdel, Hq'.
  - pose proof (Ho _ _ Hq0) as Hne. simpl in Hne.
    unfold matchDriver. simpl. split; [|split; [lia|reflexivity]].
    intros q' t' Hq'. simpl in Hq'. eapply Hins; [|exact Hq']. exact Hne.
Qed.

Lemma orphan_run tr : ∀ s id,
  Inv s → orphan id s → (id < nextObjectId s)%N →
  orphan id (run s tr) ∧ rides (run s tr) !! id = rides s !! id.
Proof.
  induction tr as [|i tr IH]; intros s id HI Ho Hlt; [by split|].
  rewrite run_cons. destruct (orphan_step s i id HI Ho Hlt) as (H1 & H2 & H3).
  destruct (IH (step s i) id (inv_step s i HI) H1 H2) as [H4 H5].
  split; [exact H4 | congruence].
Qed.

(** ** What the documents carry *)

Lemma docs_init : Inv_docs init.
Proof. split; simpl; intros; rewrite lookup_empty in *; discriminate. Qed.

Lemma docs_frame s s' :
  tasks s' = tasks s → rides s' = rides s → (now s <= now s')%Z →
  Inv_docs s → Inv_docs s'.
Proof.
  intros E1 E2 Hnow [H1 H2 H3 H4]. split; rewrite ?E1, ?E2; try assumption.
  intros q t Hq. destruct (H1 q t Hq). split; [assumption|lia].
Qed.

Lemma same_request_refl d : same_request d d.
Proof. repeat split. Qed.

Lemma docs_step s i : Inv s → Inv_docs s → Inv_docs (step s i).
Proof.
  intros HI HD.
  assert (Hother : ∀ q q' t t', q ≠ q' → tasks s !! q = Some t →
            tasks s !! q' = Some t' → _id (doc_of t') ≠ _id (doc_of t)).
  { intros q q' t t' Hne Hq Hq' Hid. apply Hne.
    eapply (inv_task_inj s HI); [exact Hq | exact Hq' | congruence]. }
  step_cases s i; try exact HD;
    try (apply (docs_frame s); [reflexivity | reflexivity | simpl; lia | exact HD]).
  - (* a valid request *)
    split; simpl.
    + intros q t Hq. destruct (decide (nextReq s = q)) as [<-|Hne].
      * rewrite lookup_insert_eq in Hq. inversion Hq; subst; simpl.
        split; [|lia]. split; [|reflexivity]. simpl. repeat split.
      * rewrite lookup_insert_ne in Hq by exact Hne. eapply docs_task; eauto.
    + intros q rider' d due Hq. destruct (decide (nextReq s = q)) as [<-|Hne].
      * rewrite lookup_insert_eq in Hq. discriminate.
      * rewrite lookup_insert_ne in Hq by exact Hne. eapply docs_timer; eauto.
    + intros q t Hq. destruct (decide (nextReq s = q)) as [<-|Hne].
      * rewrite lookup_insert_eq in Hq. inversion Hq; subst. exact I.
      * rewrite lookup_insert_ne in Hq by exact Hne.
        apply (docs_stored s HD _ _ Hq).
    + apply (docs_ride s HD).
  - (* the first save resolves *)
    pose proof (inv_task s HI _ _ Hq0) as (Hst & _ & Hnone). simpl in *.
    destruct (docs_task s HD _ _ Hq0) as [Hok Hcr]. simpl in *.
    split; simpl.
    + intros q t Hq. destruct (decide (q0 = q)) as [<-|Hne].
      * rewrite lookup_insert_eq in Hq. inversion Hq; subst; simpl. auto.
      * rewrite lookup_insert_ne in Hq by exact Hne. eapply docs_task; eauto.
    + intros q rider' d due Hq. destruct (decide (q0 = q)) as [<-|Hne].
      * rewrite lookup_insert_eq in Hq. inversion Hq; subst. lia.
      * rewrite lookup_insert_ne in Hq by exact Hne. eapply docs_timer; eauto.
    + intros q t Hq. destruct (decide (q0 = q)) as [<-|Hne].
      * rewrite lookup_insert_eq in Hq. inversion Hq; subst; simpl.
        exists doc. rewrite lookup_insert_eq.
        split; [reflexivity|]. split; [exact Hst | apply same_request_refl].
      * rewrite lookup_insert_ne in Hq by exact Hne.
        pose proof (docs_stored s HD _ _ Hq) as Hs.
        pose proof (Hother _ _ _ _ Hne Hq0 Hq) as Hid. simpl in Hid.
        destruct t; [exact I| |]; simpl in *;
          rewrite lookup_insert_ne by congruence; exact Hs.
    + intros id r Hr. destruct (decide (_id doc = id)) as [<-|Hne].
      * rewrite lookup_insert_eq in Hr. inversion Hr; subst. exact Hok.
      * rewrite lookup_insert_ne in Hr by exact Hne. eapply docs_ride; eauto.
  - (* the first save is rejected *)
    split; simpl.
    + intros q t Hq. apply lookup_delete_Some in Hq as [_ Hq].
      eapply docs_task; eauto.
    + intros q rider' d due Hq. apply lookup_delete_Some in Hq as [_ Hq].
      eapply docs_timer; eauto.
    + intros q t Hq. apply lookup_delete_Some in Hq as [_ Hq].
      apply (docs_stored s HD _ _ Hq).
    + apply (docs_ride s HD).
  - (* the save of the match resolves *)
    destruct (docs_task s HD _ _ Hq0) as [Hok Hcr]. simpl in *.
    split; simpl.
    + intros q t Hq. apply lookup_delete_Some in Hq as [_ Hq].
      eapply docs_task; eauto.
    + intros q rider' d due Hq. apply lookup_delete_Some in Hq as [_ Hq].
      eapply docs_timer; eauto.
    + intros q t Hq. apply lookup_delete_Some in Hq as [Hne Hq].
      pose proof (docs_stored s HD _ _ Hq) as Hs.
      pose proof (Hother _ _ _ _ Hne Hq0 Hq) as Hid. simpl in Hid.
      destruct t; [exact I| |]; simpl in *;
        rewrite lookup_insert_ne by congruence; exact Hs.
    + intros id r Hr. destruct (decide (_id doc = id)) as [<-|Hne].
      * rewrite lookup_insert_eq in Hr. inversion Hr; subst. exact Hok.
      * rewrite lookup_insert_ne in Hr by exact Hne. eapply docs_ride; eauto.
  - (* the save of the match is rejected *)
    split; simpl.
    + intros q t Hq. apply lookup_delete_Some in Hq as [_ Hq].
      eapply docs_task; eauto.
    + intros q rider' d due Hq. apply lookup_delete_Some in Hq as [_ Hq].
      eapply docs_timer; eauto.
    + intros q t Hq. apply lookup_delete_Some in Hq as [_ Hq].
      apply (docs_stored s HD _ _ Hq).
    + apply (docs_ride s HD).
  - (* the timer fires *)
    destruct (docs_task s HD _ _ Hq0) as [[Hok Hup] Hcr]. simpl in *.
    pose proof (docs_timer s HD _ _ _ _ Hq0) as Hd.
    pose proof (docs_stored s HD _ _ Hq0) as (r & Hr & Hrs & Hsame).
    simpl in Hr, Hsame. apply Z.leb_le in Hdue.
    unfold matchDriver. split; simpl.
    + intros q t Hq. destruct (decide (q0 = q)) as [<-|Hne].
      * rewrite lookup_insert_eq in Hq. inversion Hq; subst; simpl.
        split; [|exact Hcr]. split; [|exact Hup]. simpl.
        repeat split; try (eexists; reflexivity).
        exists (now s). split; [reflexivity | simpl; lia].
      * rewrite lookup_insert_ne in Hq by exact Hne. eapply docs_task; eauto.
    + intros q rider' d due' Hq. destruct (decide (q0 = q)) as [<-|Hne].
      * rewrite lookup_insert_eq in Hq. discriminate.
      * rewrite lookup_insert_ne in Hq by exact Hne. eapply docs_timer; eauto.
    + intros q t Hq. destruct (decide (q0 = q)) as [<-|Hne].
      * rewrite lookup_insert_eq in Hq. inversion Hq; subst; simpl.
        exists r. split; [exact Hr|]. split; [exact Hrs|exact Hsame].
      * rewrite lookup_insert_ne in Hq by exact Hne.
        apply (docs_stored s HD _ _ Hq).
    + apply (docs_ride s HD).
Qed.

Lemma docs_run tr : Inv_docs (run init tr).
Proof.
  induction tr as [|i tr IH] using rev_ind; [exact docs_init|].
  rewrite run_snoc. apply docs_step; [apply inv_run | exact IH].
Qed.

(** ** What a step sends *)

Lemma next_request_idle s : Inv s → tasks s !! nextReq s = None.
Proof.
  intros HI. destruct (tasks s !! nextReq s) as [t|] eqn:E; [|reflexivity].
  pose proof (inv_task_key s HI _ _ E). lia.
Qed.

(** A step sends at most one answer, and only for a request that has
    just arrived or whose handler it ends. *)
Lemma responses_step s i :
  Inv s →
  responses (step s i) = responses s
  ∨ ∃ q c b, responses (step s i) = responses s ++ [(q, mkResponse c b)]
             ∧ tasks (step s i) !! q = None
             ∧ (q = nextReq s ∨ is_Some (tasks s !! q)).
Proof.
  intros HI. pose proof (next_request_idle s HI) as Hidle.
  step_cases s i; try (left; reflexivity); right.
  - eexists (nextReq s), _, _. split; [reflexivity|]. split; [exact Hidle|].
    by left.
  - eexists q0, _, _. split; [reflexivity|].
    split; [apply lookup_delete_eq|]. right. rewrite Hq0. eauto.
  - eexists q0, _, _. split; [reflexivity|].
    split; [apply lookup_delete_eq|]. right. rewrite Hq0. eauto.
  - eexists (nextReq s), _, _. split; [reflexivity|]. split; [exact Hidle|].
    by left.
  - eexists (nextReq s), _, _. split; [reflexivity|]. split; [exact Hidle|].
    by left.
  - eexists (nextReq s), _, _. split; [reflexivity|]. split; [exact Hidle|].
    by left.
Qed.

(** A step emits only when the save of a match resolves, and then to
    the members of the rider's room. *)
Lemma delivered_step s i :
  delivered (step s i) = delivered s
  ∨ ∃ q rider doc driver,
      i = SaveSettles q Saved
      ∧ tasks s !! q = Some (AwaitMatchSave rider doc driver)
      ∧ delivered (step s i)
        = delivered s
          ++ ((λ sid, (q, sid, rideUpdate doc driver))
                <$> members rider (rooms s)).
Proof.
  step_cases s i; try (left; reflexivity).
  right. exists q0, rider, doc, driver. auto.
Qed.

Lemma answers_of_snoc s s' q q' r :
  responses s' = responses s ++ [(q', r)] →
  answers q s' = answers q s ++ (if decide (q' = q) then [r] else []).
Proof.
  intros E. unfold answers. rewrite E, filter_app, fmap_app. f_equal.
  destruct (decide (q' = q)) as [->|Hne].
  - rewrite filter_cons_True by reflexivity. reflexivity.
  - rewrite filter_cons_False by (simpl; congruence). reflexivity.
Qed.

Lemma answers_of_same s s' q :
  responses s' = responses s → answers q s' = answers q s.
Proof. intros E. unfold answers. rewrite E. reflexivity. Qed.

Lemma events_of_same s s' q :
  delivered s' = delivered s → events q s' = events q s.
Proof. intros E. unfold events. rewrite E. reflexivity. Qed.

Lemma events_of_emit s s' q q' ev (l : list string) :
  delivered s' = delivered s ++ ((λ sid, (q', sid, ev)) <$> l) →
  events q s'
  = events q s ++ (if decide (q' = q) then (λ sid, (q', sid, ev)) <$> l
                   else []).
Proof.
  intros E. unfold events. rewrite E, filter_app. f_equal.
  destruct (decide (q' = q)) as [->|Hne].
  - clear E. induction l as [|x l IH]; [reflexivity|].
    rewrite fmap_cons, filter_cons_True by reflexivity. by rewrite IH.
  - apply filter_none. intros d Hd.
    apply list_elem_of_fmap in Hd as (x & -> & _). simpl. congruence.
Qed.

Lemma elem_of_events q sid ev s :
  (q, sid, ev) ∈ delivered s → (q, sid, ev) ∈ events q s.
Proof.
  intros H. unfold events. apply list_elem_of_filter. split; [reflexivity|exact H].
Qed.

(** A stored ride carries its own identifier, below the next one. *)
Lemma stored_id_lt s id r :
  Inv s → rides s !! id = Some r → (id < nextObjectId s)%N.
Proof.
  intros HI Hr. destruct (inv_ride s HI _ _ Hr) as (_ & _ & [(q & t & Hq & <-)|Hd]).
  - eapply inv_task_id; eassumption.
  - eapply (inv_jrnl_id s HI _ searching). apply elem_of_hist. rewrite Hd. left.
Qed.

Lemma io_init : Inv_io init.
Proof.
  split; simpl.
  - intros q t Hq. rewrite lookup_empty in Hq. discriminate.
  - intros q. unfold answers. simpl. lia.
  - intros q sid ev Hin. by apply elem_of_nil in Hin.
Qed.

Lemma io_step s i : Inv s → keys_ok s → Inv_io s → Inv_io (step s i).
Proof.
  intros HI [Hkr Hkd] HIO.
  pose proof (inv_step s i HI) as HI'.
  (* answers and events of a request that keeps or gets a handler *)
  assert (Hidle : ∀ q, is_Some (tasks (step s i) !! q) →
            answers q s = [] ∧ events q s = []).
  { intros q [t Hq]. destruct (tasks s !! q) as [t0|] eqn:E.
    - eapply io_pending; eassumption.
    - destruct (lt_dec q (nextReq s)) as [Hlt|Hge].
      + destruct (settled_step s i q Hlt E) as (_ & Hn & _). congruence.
      + split; [apply answers_fresh|apply events_fresh].
        * intros q' r Hin. specialize (Hkr _ _ Hin). lia.
        * intros q' sid ev Hin. specialize (Hkd _ _ _ Hin). lia. }
  assert (Hans : ∀ q, answers q (step s i) = answers q s
            ∨ (answers q s = [] ∧ tasks (step s i) !! q = None
               ∧ ∃ r, answers q (step s i) = [r])).
  { intros q. destruct (responses_step s i HI) as [E|(q' & c & b & E & Hn & Hw)].
    - left. apply answers_of_same, E.
    - rewrite (answers_of_snoc s _ q q' _ E).
      destruct (decide (q' = q)) as [->|Hne]; [|left; apply app_nil_r].
      right.
      assert (Hnil : answers q s = []).
      { destruct Hw as [->|[t Ht]].
        - apply answers_fresh. exact Hkr.
        - eapply io_pending; eassumption. }
      rewrite Hnil. split; [reflexivity|]. split; [exact Hn|]. eauto. }
  split.
  - intros q t Hq. destruct (Hidle q (mk_is_Some _ _ Hq)) as [Ha He].
    split.
    + destruct (Hans q) as [E|(_ & Hn & _)]; [congruence|congruence].
    + destruct (delivered_step s i)
        as [E|(q' & rider & doc & driver & -> & Hq' & E)].
      * rewrite (events_of_same s _ q E). exact He.
      * rewrite (events_of_emit s _ q q' _ _ E), He.
        destruct (decide (q' = q)) as [->|Hne]; [|reflexivity].
        exfalso. simpl in Hq. rewrite Hq' in Hq. simpl in Hq.
        rewrite lookup_delete_eq in Hq. discriminate.
  - intros q. destruct (Hans q) as [E|(_ & _ & r & E)]; rewrite E.
    + apply (io_one s HIO).
    + simpl. lia.
  - intros q sid ev Hin.
    assert (Hold : (q, sid, ev) ∈ delivered s →
      ∃ doc driver, ev = rideUpdate doc driver ∧ status doc = accepted
        ∧ rides (step s i) !! _id doc = Some doc
        ∧ orphan (_id doc) (step s i)
        ∧ answers q (step s i)
          = [mkResponse 200 (JRideAnswer (rideAnswer doc driver))]).
    { intros Hin0.
      destruct (io_event s HIO _ _ _ Hin0)
        as (doc & driver & -> & Hacc & Hr & Ho & Ha).
      exists doc, driver. split; [reflexivity|]. split; [exact Hacc|].
      destruct (orphan_step s i (_id doc) HI Ho (stored_id_lt s _ _ HI Hr))
        as (Ho' & _ & Hr').
      split; [congruence|]. split; [exact Ho'|].
      destruct (Hans q) as [E|(Hnil & _)]; [congruence|].
      rewrite Hnil in Ha. discriminate. }
    destruct (delivered_step s i)
      as [E|(q' & rider & doc & driver & -> & Hq' & E)].
    + rewrite E in Hin. apply Hold, Hin.
    + rewrite E in Hin. apply elem_of_app in Hin as [Hin|Hin]; [apply Hold, Hin|].
      apply list_elem_of_fmap in Hin as (x & Hx & _). inversion Hx; subst.
      exists doc, driver. split; [reflexivity|].
      split; [apply (inv_task s HI _ _ Hq')|].
      destruct (io_pending s HIO _ _ Hq') as [Hnil _].
      simpl. rewrite Hq'. simpl.
      split; [apply lookup_insert_eq|]. split.
      * intros q t Hq. simpl in Hq.
        apply lookup_delete_Some in Hq as [Hne Hq]. intros Hid.
        apply Hne. eapply (inv_task_inj s HI); [exact Hq'|exact Hq|].
        simpl. congruence.
      * rewrite answers_snoc_eq.
        change (answers q' (emitTo _ _ _ ?x)) with (answers q' x).
        change (answers q' (set_tasks _ ?x)) with (answers q' x).
        change (answers q' (store _ s)) with (answers q' s).
        rewrite Hnil. reflexivity.
Qed.

Lemma io_run tr : Inv_io (run init tr).
Proof.
  induction tr as [|i tr IH] using rev_ind; [exact io_init|].
  rewrite run_snoc. apply io_step; [apply inv_run | apply keys_run | exact IH].
Qed.

(** ** No socket is twice in a room *)

Lemma sameValueZero_sym a b :
  sameValueZero a b = true → sameValueZero b a = true.
Proof.
  destruct a, b; simpl; try discriminate; try reflexivity.
  - intros H. apply Bool.eqb_prop in H. subst. apply Bool.eqb_reflx.
  - intros H. apply Qeq_bool_iff in H. apply Qeq_bool_iff. by symmetry.
  - intros H. apply String.eqb_eq in H. subst. apply String.eqb_refl.
Qed.

Lemma distinct_rooms_snoc rs sid r :
  distinct_rooms rs →
  (∀ r', (sid, r') ∈ rs → sameValueZero r' r = false) →
  distinct_rooms (rs ++ [(sid, r)]).
Proof.
  induction rs as [|[sid0 r0] rs IH]; simpl; intros Hd Hnew.
  - split; [|exact I]. intros r' Hin. by apply elem_of_nil in Hin.
  - destruct Hd as [Hhd Htl]. split.
    + intros r' Hin. apply elem_of_app in Hin as [Hin|Hin]; [by apply Hhd|].
      apply list_elem_of_singleton in Hin. inversion Hin; subst.
      apply Hnew. left.
    + apply IH; [exact Htl|]. intros r' Hin. apply Hnew. by right.
Qed.

Lemma distinct_rooms_leaveAll rs sid :
  distinct_rooms rs → distinct_rooms (leaveAll sid rs).
Proof.
  induction rs as [|[sid0 r0] rs IH]; simpl; intros Hd; [exact I|].
  destruct Hd as [Hhd Htl]. destruct (negb (sid0 =? sid)%string); [|by apply IH].
  simpl. split; [|by apply IH].
  intros r' Hin. apply Hhd. fold (leaveAll sid rs) in Hin.
  apply elem_of_leaveAll in Hin. tauto.
Qed.

Lemma members_NoDup room rs : distinct_rooms rs → NoDup (members room rs).
Proof.
  induction rs as [|[sid0 r0] rs IH]; simpl; intros Hd; [constructor|].
  destruct Hd as [Hhd Htl]. unfold members. simpl.
  destruct (sameValueZero r0 room) eqn:E; [|by apply IH].
  rewrite fmap_cons. simpl. constructor; [|by apply IH].
  intros Hin. fold (members room rs) in Hin.
  apply elem_of_members, in_room_spec in Hin as (r' & Hr' & Hs).
  specialize (Hhd r' Hr'). simpl in Hhd.
  rewrite (sameValueZero_trans r0 room r' E (sameValueZero_sym _ _ Hs)) in Hhd.
  discriminate.
Qed.

Lemma rooms_init : Inv_rooms init.
Proof. split; simpl; [exact I|]. intros sid r H. by apply elem_of_nil in H. Qed.

Lemma rooms_step s i : Inv_rooms s → Inv_rooms (step s i).
Proof.
  intros HR. pose proof HR as [Hd Hs].
  step_cases s i; try exact HR.
  - (* a new connection *)
    split; simpl.
    + apply distinct_rooms_snoc; [exact Hd|].
      intros r' Hin. apply Hs in Hin. contradiction.
    + intros sid r Hin. apply elem_of_app in Hin as [Hin|Hin].
      * apply Hs in Hin. set_solver.
      * apply list_elem_of_singleton in Hin. inversion Hin; subst. set_solver.
  - (* joinRideRoom *)
    split; simpl.
    + unfold join. destruct (in_room sid0 u0 (rooms s)) eqn:E; [exact Hd|].
      apply distinct_rooms_snoc; [exact Hd|].
      intros r' Hin. destruct (sameValueZero r' u0) eqn:E'; [|reflexivity].
      assert (in_room sid0 u0 (rooms s) = true)
        by (apply in_room_spec; eauto).
      congruence.
    + intros sid r Hin. apply elem_of_join_inv in Hin as [Hin|Hin].
      * eapply Hs, Hin.
      * inversion Hin; subst.
        apply connected_spec in Hconn as (r' & Hr'). eapply Hs, Hr'.
  - (* disconnect *)
    split; simpl.
    + apply distinct_rooms_leaveAll, Hd.
    + intros sid r Hin. apply elem_of_leaveAll in Hin as [Hin _].
      eapply Hs, Hin.
Qed.

Lemma rooms_run tr : Inv_rooms (run init tr).
Proof. apply run_ind; [exact rooms_init | intros s i; apply rooms_step]. Qed.

(** ** Answers *)

(** X1.  In every run a request gets at most one answer; while its
    handler is suspended it has got none and nothing has been emitted for
    it; and a request that has not arrived has none. *)
Theorem one_answer_per_request (tr : list Input) (q : nat) :
  let s := run init tr in
  length (answers q s) <= 1
  ∧ (is_Some (tasks s !! q) → answers q s = [] ∧ events q s = [])
  ∧ (nextReq s <= q → answers q s = [] ∧ events q s = []).
Proof.
  intros s. pose proof (io_run tr) as HIO. pose proof (keys_run tr) as [Hr Hd].
  fold s in HIO, Hr, Hd. split; [apply (io_one s HIO)|]. split.
  - intros [t Hq]. eapply io_pending; eassumption.
  - intros Hge. split; [apply answers_fresh|apply events_fresh].
    + intros q' r Hin. specialize (Hr _ _ Hin). lia.
    + intros q' sid ev Hin. specialize (Hd _ _ _ Hin). lia.
Qed.

Lemma one_answer_per_request_witness :
  let s := run init scenario3 in
  is_Some (tasks s !! 0) ∧ answers 0 s = [] ∧ events 0 s = [].
Proof.
  intros s.
  assert (H : is_Some (tasks s !! 0)) by (vm_compute; eauto).
  split; [exact H|].
  exact (proj1 (proj2 (one_answer_per_request scenario3 0)) H).
Defined.

(** ** Delivery *)

Lemma receivers_count q ev (l : list string) sid :
  NoDup l →
  length (filter (λ d : nat * string * RideUpdate, d.1.2 = sid)
            ((λ x, (q, x, ev)) <$> l))
  = if decide (sid ∈ l) then 1 else 0.
Proof.
  induction 1 as [|x l Hx Hl IH]; [reflexivity|].
  rewrite fmap_cons. destruct (decide (x = sid)) as [->|Hne].
  - rewrite filter_cons_True by reflexivity. simpl. rewrite IH.
    rewrite decide_False by exact Hx.
    rewrite decide_True by left. reflexivity.
  - rewrite filter_cons_False by (simpl; congruence). rewrite IH.
    destruct (decide (sid ∈ l)) as [Hin|Hnin].
    + rewrite decide_True by (by right). reflexivity.
    + rewrite decide_False; [reflexivity|].
      intros Hin. apply elem_of_cons in Hin as [->|Hin]; contradiction.
Qed.

Lemma receivers_of_emit q ev (l : list string) :
  (λ d : nat * string * RideUpdate, d.1.2) <$> ((λ x, (q, x, ev)) <$> l) = l.
Proof.
  induction l as [|x l IH]; [reflexivity|].
  rewrite !fmap_cons. simpl. f_equal. exact IH.
Qed.

(** X2.  When the save of a match resolves, no socket gets the event
    twice, however often it has joined the room: a socket that has joined
    the rider's room and not disconnected gets it exactly once, and a
    socket that is not in the room gets none. *)
Theorem update_reaches_a_socket_once
    (tr : list Input) (q : nat) (rider : JsVal) (doc : Ride)
    (driver : MockDriver) :
  let s := run init tr in
  tasks s !! q = Some (AwaitMatchSave rider doc driver) →
  ∃ D, delivered (step s (SaveSettles q Saved)) = delivered s ++ D
     ∧ NoDup ((λ d, d.1.2) <$> D)
     ∧ (∀ sid, joined tr sid rider →
               length (filter (λ d, d.1.2 = sid) D) = 1)
     ∧ (∀ sid, in_room sid rider (rooms s) = false →
               length (filter (λ d, d.1.2 = sid) D) = 0).
Proof.
  intros s Hq.
  exists ((λ sid, (q, sid, rideUpdate doc driver)) <$> members rider (rooms s)).
  pose proof (members_NoDup rider (rooms s) (proj1 (rooms_run tr))) as Hnd.
  fold s in Hnd.
  split; [simpl; rewrite Hq; reflexivity|]. split; [|split].
  - rewrite receivers_of_emit. exact Hnd.
  - intros sid Hj. rewrite receivers_count by exact Hnd.
    rewrite decide_True; [reflexivity|].
    apply elem_of_members, joined_in_room, Hj.
  - intros sid Hn. rewrite receivers_count by exact Hnd.
    rewrite decide_False; [reflexivity|].
    intros Hin. apply elem_of_members in Hin. fold s in Hn. congruence.
Qed.

Lemma update_reaches_a_socket_once_witness :
  let tr := scenario3 ++ [JoinRideRoom "a" (VStr "u2")] in
  let s := run init tr in
  let doc := applyMatch (newRide 0 0 (VStr "u2") (VStr "A") (VStr "B")) 1
               (fareText (1 # 3)) (etaText (1 # 2)) 3000 in
  tasks s !! 0 = Some (AwaitMatchSave (VStr "u2") doc (mockDriver 1))
  ∧ ∃ D, delivered (step s (SaveSettles 0 Saved)) = delivered s ++ D
       ∧ NoDup ((λ d, d.1.2) <$> D)
       ∧ (∀ sid, joined tr sid (VStr "u2") →
                 length (filter (λ d, d.1.2 = sid) D) = 1)
       ∧ (∀ sid, in_room sid (VStr "u2") (rooms s) = false →
                 length (filter (λ d, d.1.2 = sid) D) = 0).
Proof.
  intros tr s doc.
  assert (Hq : tasks s !! 0
               = Some (AwaitMatchSave (VStr "u2") doc (mockDriver 1)))
    by (vm_compute; reflexivity).
  split; [exact Hq|].
  exact (update_reaches_a_socket_once tr 0 (VStr "u2") doc (mockDriver 1) Hq).
Defined.

(** ** How a request ends *)

Lemma finished_orphan s q t :
  Inv s → tasks s !! q = Some t →
  ∀ q' t', delete q (tasks s) !! q' = Some t' →
           _id (doc_of t') ≠ _id (doc_of t).
Proof.
  intros HI Hq q' t' Hq'. apply lookup_delete_Some in Hq' as [Hne Hq'].
  intros Hid. apply Hne. eapply (inv_task_inj s HI); [exact Hq|exact Hq'|].
  congruence.
Qed.

(** X3.  Once the save of a match has resolved, the request is over: in
    every continuation of the run its answer stays the one 200 of that
    step, the events emitted for it stay those of that step, one per
    member of the rider's room at that moment (a socket that joins later
    gets nothing), and the stored ride stays the matched document. *)
Theorem match_completion_is_final
    (tr : list Input) (q : nat) (rider : JsVal) (doc : Ride)
    (driver : MockDriver) (tr' : list Input) :
  let s := run init tr in
  tasks s !! q = Some (AwaitMatchSave rider doc driver) →
  let s2 := run (step s (SaveSettles q Saved)) tr' in
  answers q s2 = [mkResponse 200 (JRideAnswer (rideAnswer doc driver))]
  ∧ events q s2
    = (λ sid, (q, sid, rideUpdate doc driver)) <$> members rider (rooms s)
  ∧ rides s2 !! _id doc = Some doc
  ∧ tasks s2 !! q = None.
Proof.
  intros s Hq s2.
  pose proof (inv_run tr) as HI. pose proof (io_run tr) as HIO.
  fold s in HI, HIO.
  destruct (io_pending s HIO _ _ Hq) as [Ha He].
  pose proof (inv_task_key s HI _ _ Hq) as Hlt.
  set (s1 := step s (SaveSettles q Saved)) in *.
  assert (E : s1 = afterMatchSave q rider doc driver Saved s)
    by (unfold s1; simpl; rewrite Hq; reflexivity).
  assert (HI1 : Inv s1) by apply inv_step, HI.
  destruct (settled_run tr' s1 q) as (_ & Hn & Hans & Hev).
  { rewrite E. simpl. exact Hlt. }
  { rewrite E. simpl. apply lookup_delete_eq. }
  destruct (orphan_run tr' s1 (_id doc) HI1) as [_ Hr].
  { rewrite E. intros q' t' Hq'. simpl in Hq'.
    apply (finished_orphan s q _ HI Hq _ _ Hq'). }
  { rewrite E. simpl. apply (inv_task_id s q _ HI Hq). }
  unfold s2. rewrite Hans, Hev, Hr. split; [|split; [|split; [|exact Hn]]].
  - rewrite E. unfold afterMatchSave. rewrite answers_snoc_eq.
    change (answers q (emitTo _ _ _ ?x)) with (answers q x).
    change (answers q (set_tasks _ ?x)) with (answers q x).
    change (answers q (store _ s)) with (answers q s).
    rewrite Ha. reflexivity.
  - rewrite (events_of_emit s s1 q q (rideUpdate doc driver)
               (members rider (rooms s))); [|rewrite E; reflexivity].
    rewrite He, decide_True by reflexivity. reflexivity.
  - rewrite E. simpl. apply lookup_insert_eq.
Qed.

Lemma match_completion_is_final_witness :
  let s := run init scenario3 in
  let doc := applyMatch (newRide 0 0 (VStr "u2") (VStr "A") (VStr "B")) 1
               (fareText (1 # 3)) (etaText (1 # 2)) 3000 in
  let tr' := [Connect "d"; JoinRideRoom "d" (VStr "u2"); Tick 5000] in
  tasks s !! 0 = Some (AwaitMatchSave (VStr "u2") doc (mockDriver 1))
  ∧ (let s2 := run (step s (SaveSettles 0 Saved)) tr' in
     answers 0 s2
     = [mkResponse 200 (JRideAnswer (rideAnswer doc (mockDriver 1)))]
     ∧ events 0 s2
       = (λ sid, (0, sid, rideUpdate doc (mockDriver 1)))
           <$> members (VStr "u2") (rooms s)
     ∧ rides s2 !! _id doc = Some doc
     ∧ tasks s2 !! 0 = None).
Proof.
  intros s doc tr'.
  assert (Hq : tasks s !! 0
               = Some (AwaitMatchSave (VStr "u2") doc (mockDriver 1)))
    by (vm_compute; reflexivity).
  split; [exact Hq|].
  exact (match_completion_is_final scenario3 0 (VStr "u2") doc (mockDriver 1)
           tr' Hq).
Defined.

(** X4.  When the save of the match is rejected, nothing catches it: in
    every continuation of the run the request has no answer and no event
    is emitted for it, and the collection still holds the ride as it was
    saved at creation, with status [searching]. *)
Theorem rejected_match_save_leaves_request_unanswered
    (tr : list Input) (q : nat) (rider : JsVal) (doc : Ride)
    (driver : MockDriver) (msg : string) (tr' : list Input) :
  let s := run init tr in
  tasks s !! q = Some (AwaitMatchSave rider doc driver) →
  let s2 := run (step s (SaveSettles q (SaveRejected msg))) tr' in
  answers q s2 = [] ∧ events q s2 = []
  ∧ tasks s2 !! q = None
  ∧ ∃ r, rides s2 !! _id doc = Some r
         ∧ status r = searching ∧ unmatched r ∧ same_request doc r.
Proof.
  intros s Hq s2.
  pose proof (inv_run tr) as HI. pose proof (io_run tr) as HIO.
  pose proof (docs_run tr) as HD. fold s in HI, HIO, HD.
  destruct (io_pending s HIO _ _ Hq) as [Ha He].
  pose proof (inv_task_key s HI _ _ Hq) as Hlt.
  destruct (docs_stored s HD _ _ Hq) as (r & Hr & Hrs & Hsame).
  simpl in Hr, Hsame.
  set (s1 := step s (SaveSettles q (SaveRejected msg))) in *.
  assert (E : s1 = set_tasks (delete q (tasks s)) s)
    by (unfold s1; simpl; rewrite Hq; reflexivity).
  assert (HI1 : Inv s1) by apply inv_step, HI.
  destruct (settled_run tr' s1 q) as (_ & Hn & Hans & Hev).
  { rewrite E. simpl. exact Hlt. }
  { rewrite E. simpl. apply lookup_delete_eq. }
  destruct (orphan_run tr' s1 (_id doc) HI1) as [_ Hr2].
  { rewrite E. intros q' t' Hq'. simpl in Hq'.
    apply (finished_orphan s q _ HI Hq _ _ Hq'). }
  { rewrite E. simpl. apply (inv_task_id s q _ HI Hq). }
  unfold s2. rewrite Hans, Hev, Hr2, E. simpl.
  split; [exact Ha|]. split; [exact He|]. split; [rewrite <- E; exact Hn|].
  exists r. split; [exact Hr|]. split; [exact Hrs|]. split; [|exact Hsame].
  pose proof (docs_ride s HD _ _ Hr) as [Hok _]. rewrite Hrs in Hok. exact Hok.
Qed.

Lemma rejected_match_save_leaves_request_unanswered_witness :
  let s := run init scenario3 in
  let doc := applyMatch (newRide 0 0 (VStr "u2") (VStr "A") (VStr "B")) 1
               (fareText (1 # 3)) (etaText (1 # 2)) 3000 in
  let tr' := [Tick 60000; SaveSettles 0 Saved; TimerFires 0 (1 # 2) (1 # 2)] in
  tasks s !! 0 = Some (AwaitMatchSave (VStr "u2") doc (mockDriver 1))
  ∧ (let s2 := run (step s (SaveSettles 0 (SaveRejected "down"))) tr' in
     answers 0 s2 = [] ∧ events 0 s2 = []
     ∧ tasks s2 !! 0 = None
     ∧ ∃ r, rides s2 !! _id doc = Some r
            ∧ status r = searching ∧ unmatched r ∧ same_request doc r).
Proof.
  intros s doc tr'.
  assert (Hq : tasks s !! 0
               = Some (AwaitMatchSave (VStr "u2") doc (mockDriver 1)))
    by (vm_compute; reflexivity).
  split; [exact Hq|].
  exact (rejected_match_save_leaves_request_unanswered scenario3 0 (VStr "u2")
           doc (mockDriver 1) "down" tr' Hq).
Defined.

(** X5.  When the first save is rejected, the [catch] answers 500 with
    the message of the error in that step; the ride is not stored, no
    timer is armed, and in every continuation of the run the 500 stays
    the only answer, no event is emitted for the request and no ride is
    ever stored under the identifier of the document. *)
Theorem rejected_create_is_answered_500
    (tr : list Input) (q : nat) (rider : JsVal) (doc : Ride)
    (msg : string) (tr' : list Input) :
  let s := run init tr in
  tasks s !! q = Some (AwaitCreate rider doc) →
  let s1 := step s (SaveSettles q (SaveRejected msg)) in
  let s2 := run s1 tr' in
  responses s1
  = responses s
    ++ [(q, mkResponse 500 (JError "Failed to request ride" msg))]
  ∧ rides s1 = rides s
  ∧ answers q s2 = [mkResponse 500 (JError "Failed to request ride" msg)]
  ∧ events q s2 = []
  ∧ tasks s2 !! q = None
  ∧ rides s2 !! _id doc = None.
Proof.
  intros s Hq s1 s2.
  pose proof (inv_run tr) as HI. pose proof (io_run tr) as HIO.
  fold s in HI, HIO.
  destruct (io_pending s HIO _ _ Hq) as [Ha He].
  pose proof (inv_task_key s HI _ _ Hq) as Hlt.
  pose proof (inv_task s HI _ _ Hq) as (_ & _ & Hnone). simpl in Hnone.
  assert (E : s1 = respond q 500 (JError "Failed to request ride" msg)
                     (set_tasks (delete q (tasks s)) s))
    by (unfold s1; simpl; rewrite Hq; reflexivity).
  assert (HI1 : Inv s1) by apply inv_step, HI.
  destruct (settled_run tr' s1 q) as (_ & Hn & Hans & Hev).
  { rewrite E. simpl. exact Hlt. }
  { rewrite E. simpl. apply lookup_delete_eq. }
  destruct (orphan_run tr' s1 (_id doc) HI1) as [_ Hr2].
  { rewrite E. intros q' t' Hq'. simpl in Hq'.
    apply (finished_orphan s q _ HI Hq _ _ Hq'). }
  { rewrite E. simpl. apply (inv_task_id s q _ HI Hq). }
  unfold s2. rewrite Hans, Hev, Hr2.
  split; [rewrite E; reflexivity|]. split; [rewrite E; reflexivity|].
  split; [|split; [|split; [exact Hn|]]].
  - rewrite E, answers_snoc_eq.
    change (answers q (set_tasks _ s)) with (answers q s).
    rewrite Ha. reflexivity.
  - rewrite E. exact He.
  - rewrite E. exact Hnone.
Qed.

Lemma rejected_create_is_answered_500_witness :
  let tr := [PostRideRequest (VStr "u1") (VStr "A") (VStr "B")] in
  let s := run init tr in
  let doc := newRide 0 0 (VStr "u1") (VStr "A") (VStr "B") in
  let tr' := [Tick 60000; TimerFires 0 (1 # 2) (1 # 2)] in
  tasks s !! 0 = Some (AwaitCreate (VStr "u1") doc)
  ∧ (let s1 := step s (SaveSettles 0 (SaveRejected "down")) in
     let s2 := run s1 tr' in
     responses s1
     = responses s
       ++ [(0, mkResponse 500 (JError "Failed to request ride" "down"))]
     ∧ rides s1 = rides s
     ∧ answers 0 s2
       = [mkResponse 500 (JError "Failed to request ride" "down")]
     ∧ events 0 s2 = []
     ∧ tasks s2 !! 0 = None
     ∧ rides s2 !! _id doc = None).
Proof.
  intros tr s doc tr'.
  assert (Hq : tasks s !! 0 = Some (AwaitCreate (VStr "u1") doc))
    by (vm_compute; reflexivity).
  split; [exact Hq|].
  exact (rejected_create_is_answered_500 tr 0 (VStr "u1") doc "down" tr' Hq).
Defined.

(** ** What the rider is told and what is stored *)

(** X6.  In every run, whenever an event has been emitted, the ride it
    names is stored with status [accepted] and with the fare, arrival
    text and pickup time of the event; the request has been answered 200
    with the same identifier, status, driver, fare, arrival text and
    pickup time; and a status query for that identifier that resolves
    answers 200 with that stored ride. *)
Theorem event_answer_and_store_agree
    (tr : list Input) (q : nat) (sid : string) (ev : RideUpdate) :
  let s := run init tr in
  (q, sid, ev) ∈ delivered s →
  ∃ r a,
    rides s !! ev_rideId ev = Some r
    ∧ status r = accepted ∧ ev_status ev = accepted
    ∧ ev_fare ev = fare r
    ∧ ev_estimatedArrivalTime ev = estimatedArrivalTime r
    ∧ ev_pickupTime ev = LocaleTimeString <$> pickupTime r
    ∧ answers q s = [mkResponse 200 (JRideAnswer a)]
    ∧ ans_rideId a = ev_rideId ev ∧ ans_status a = ev_status ev
    ∧ ans_driverName a = ev_driverName ev
    ∧ ans_driverVehicle a = ev_driverVehicle ev
    ∧ ans_fare a = ev_fare ev
    ∧ ans_estimatedArrivalTime a = ev_estimatedArrivalTime ev
    ∧ ans_pickupTime a = ev_pickupTime ev
    ∧ ∀ rider driver,
        answers (nextReq s)
          (step s (GetRide (ev_rideId ev) (FindResolved rider driver)))
        = [mkResponse 200 (JRide r rider driver)].
Proof.
  intros s Hin. pose proof (io_run tr) as HIO. pose proof (keys_run tr) as [Hk _].
  fold s in HIO, Hk.
  destruct (io_event s HIO _ _ _ Hin) as (doc & driver & -> & Hacc & Hr & _ & Ha).
  exists doc, (rideAnswer doc driver). simpl.
  split; [exact Hr|]. do 2 (split; [exact Hacc|]).
  do 3 (split; [reflexivity|]). split; [exact Ha|].
  do 7 (split; [reflexivity|]).
  intros rider driver'. unfold getRide. simpl. rewrite Hr.
  rewrite answers_snoc_eq.
  change (answers (nextReq s) (set_nextReq _ s)) with (answers (nextReq s) s).
  rewrite answers_fresh; [reflexivity|exact Hk].
Qed.

Lemma event_answer_and_store_agree_witness :
  let tr := scenario3 ++ [SaveSettles 0 Saved] in
  let s := run init tr in
  let ev := rideUpdate
              (applyMatch (newRide 0 0 (VStr "u2") (VStr "A") (VStr "B")) 1
                 (fareText (1 # 3)) (etaText (1 # 2)) 3000)
              (mockDriver 1) in
  (0, "a", ev) ∈ delivered s
  ∧ ∃ r a,
      rides s !! ev_rideId ev = Some r
      ∧ status r = accepted ∧ ev_status ev = accepted
      ∧ ev_fare ev = fare r
      ∧ ev_estimatedArrivalTime ev = estimatedArrivalTime r
      ∧ ev_pickupTime ev = LocaleTimeString <$> pickupTime r
      ∧ answers 0 s = [mkResponse 200 (JRideAnswer a)]
      ∧ ans_rideId a = ev_rideId ev ∧ ans_status a = ev_status ev
      ∧ ans_driverName a = ev_driverName ev
      ∧ ans_driverVehicle a = ev_driverVehicle ev
      ∧ ans_fare a = ev_fare ev
      ∧ ans_estimatedArrivalTime a = ev_estimatedArrivalTime ev
      ∧ ans_pickupTime a = ev_pickupTime ev
      ∧ ∀ rider driver,
          answers (nextReq s)
            (step s (GetRide (ev_rideId ev) (FindResolved rider driver)))
          = [mkResponse 200 (JRide r rider driver)].
Proof.
  intros tr s ev.
  assert (Hin : (0, "a", ev) ∈ delivered s).
  { assert (E : delivered s = [(0, "a", ev); (0, "b", ev)])
      by (vm_compute; reflexivity).
    rewrite E. left. }
  split; [exact Hin|].
  exact (event_answer_and_store_agree tr 0 "a" ev Hin).
Defined.

(** ** Stored rides *)

Lemma same_request_sym d r : same_request d r → same_request r d.
Proof. unfold same_request. intuition congruence. Qed.

Lemma same_request_trans a b c :
  same_request a b → same_request b c → same_request a c.
Proof. unfold same_request. intuition congruence. Qed.

Lemma stored_ride_step s i id r :
  Inv s → Inv_docs s → rides s !! id = Some r →
  ∃ r', rides (step s i) !! id = Some r' ∧ same_request r r'
        ∧ (status r = accepted → r' = r).
Proof.
  intros HI HD Hr.
  assert (Hsame : ∃ r', rides s !! id = Some r' ∧ same_request r r'
                        ∧ (status r = accepted → r' = r)).
  { exists r. split; [exact Hr|]. split; [apply same_request_refl|auto]. }
  step_cases s i; try exact Hsame.
  - pose proof (inv_task s HI _ _ Hq0) as (_ & _ & Hnone). simpl in Hnone.
    rewrite lookup_insert_ne by congruence. exact Hsame.
  - destruct (decide (_id doc = id)) as [<-|Hne].
    + rewrite lookup_insert_eq.
      destruct (docs_stored s HD _ _ Hq0) as (r0 & Hr0 & Hs0 & Hsm).
      simpl in Hr0, Hsm. rewrite Hr in Hr0. inversion Hr0; subst r0.
      exists doc. split; [reflexivity|].
      split; [apply same_request_sym, Hsm|]. intros Hcontra. congruence.
    + rewrite lookup_insert_ne by exact Hne. exact Hsame.
Qed.

(** X7.  A stored ride is never removed, and its identifier, rider,
    pickup location, destination, [createdAt] and [updatedAt] never
    change; once it is [accepted], nothing of it changes any more. *)
Theorem stored_ride_is_kept
    (tr tr' : list Input) (id : ObjectId) (r : Ride) :
  let s := run init tr in
  rides s !! id = Some r →
  ∃ r', rides (run s tr') !! id = Some r' ∧ same_request r r'
        ∧ (status r = accepted → r' = r).
Proof.
  intros s. unfold s. clear s. revert r.
  induction tr' as [|i tr' IH] using rev_ind; intros r Hr.
  - exists r. split; [exact Hr|]. split; [apply same_request_refl|auto].
  - destruct (IH r Hr) as (r1 & Hr1 & Hs1 & Ha1).
    rewrite run_snoc. rewrite <- run_app in Hr1 |- *.
    destruct (stored_ride_step _ i id r1 (inv_run _) (docs_run _) Hr1)
      as (r2 & Hr2 & Hs2 & Ha2).
    exists r2. split; [exact Hr2|].
    split; [eapply same_request_trans; eassumption|].
    intros Hacc. specialize (Ha1 Hacc). subst r1. apply Ha2, Hacc.
Qed.

Lemma stored_ride_is_kept_witness :
  let tr := scenario1_open in
  let s := run init tr in
  let r := newRide 0 0 (VStr "u1") (VStr "A") (VStr "B") in
  rides s !! 0%N = Some r
  ∧ ∃ r', rides (run s scenario1_match) !! 0%N = Some r' ∧ same_request r r'
          ∧ (status r = accepted → r' = r).
Proof.
  intros tr s r.
  assert (Hr : rides s !! 0%N = Some r) by (vm_compute; reflexivity).
  split; [exact Hr|].
  exact (stored_ride_is_kept tr scenario1_match 0%N r Hr).
Defined.

(** X8.  In every run a stored ride is [searching] with no driver, fare,
    arrival text and pickup time, or [accepted] with all four. *)
Theorem stored_ride_fields_follow_status
    (tr : list Input) (id : ObjectId) (r : Ride) :
  rides (run init tr) !! id = Some r →
  (status r = searching
   ∧ driverId r = None ∧ fare r = None ∧ estimatedArrivalTime r = None
   ∧ pickupTime r = None)
  ∨ (status r = accepted
     ∧ is_Some (driverId r) ∧ is_Some (fare r)
     ∧ is_Some (estimatedArrivalTime r) ∧ is_Some (pickupTime r)).
Proof.
  intros Hr. destruct (docs_ride _ (docs_run tr) _ _ Hr) as [Hok _].
  destruct (status r); try contradiction.
  - left. split; [reflexivity|exact Hok].
  - right. destruct Hok as (H1 & H2 & H3 & t & H4 & _).
    rewrite H4. repeat split; eauto.
Qed.

Lemma stored_ride_fields_follow_status_witness :
  let r := applyMatch (newRide 0 0 rider507 (VStr "A") (VStr "B")) 1
             (fareText (1 # 3)) (etaText (1 # 2)) 3000 in
  rides (run init (scenario4_open ++ scenario4_match)) !! 0%N = Some r
  ∧ ((status r = searching
      ∧ driverId r = None ∧ fare r = None ∧ estimatedArrivalTime r = None
      ∧ pickupTime r = None)
     ∨ (status r = accepted
        ∧ is_Some (driverId r) ∧ is_Some (fare r)
        ∧ is_Some (estimatedArrivalTime r) ∧ is_Some (pickupTime r))).
Proof.
  intros r.
  assert (Hr : rides (run init (scenario4_open ++ scenario4_match)) !! 0%N
               = Some r) by (vm_compute; reflexivity).
  split; [exact Hr|].
  exact (stored_ride_fields_follow_status
           (scenario4_open ++ scenario4_match) 0%N r Hr).
Defined.

(** X9.  In every run the pickup time of an emitted event, and of a
    stored ride, is at least 3000 ms after the creation of the ride: no
    match is announced sooner than the delay of the timer. *)
Theorem match_not_before_timer (tr : list Input) :
  let s := run init tr in
  (∀ id r t, rides s !! id = Some r → pickupTime r = Some t →
             (createdAt r + 3000 <= t)%Z)
  ∧ (∀ q sid ev, (q, sid, ev) ∈ delivered s →
       ∃ r t, rides s !! ev_rideId ev = Some r
              ∧ ev_pickupTime ev = Some (LocaleTimeString t)
              ∧ (createdAt r + 3000 <= t)%Z).
Proof.
  intros s. pose proof (docs_run tr) as HD. pose proof (io_run tr) as HIO.
  fold s in HD, HIO.
  assert (H1 : ∀ id r t, rides s !! id = Some r → pickupTime r = Some t →
                         (createdAt r + 3000 <= t)%Z).
  { intros id r t Hr Ht. destruct (docs_ride s HD _ _ Hr) as [Hok _].
    destruct (status r); try contradiction.
    - destruct Hok as (_ & _ & _ & Hp). congruence.
    - destruct Hok as (_ & _ & _ & t' & Ht' & Hle). congruence. }
  split; [exact H1|].
  intros q sid ev Hin.
  destruct (io_event s HIO _ _ _ Hin) as (doc & driver & -> & Hacc & Hr & _).
  destruct (docs_ride s HD _ _ Hr) as [Hok _]. rewrite Hacc in Hok.
  destruct Hok as (_ & _ & _ & t & Ht & Hle).
  exists doc, t. simpl. rewrite Ht. auto.
Qed.

Lemma match_not_before_timer_witness :
  let s := run init (scenario1_open ++ scenario1_match) in
  let r := applyMatch (newRide 0 0 (VStr "u1") (VStr "A") (VStr "B")) 1
             (fareText (1 # 3)) (etaText (1 # 2)) 3000 in
  rides s !! 0%N = Some r ∧ pickupTime r = Some 3000%Z
  ∧ (createdAt r + 3000 <= 3000)%Z.
Proof.
  intros s r.
  assert (Hr : rides s !! 0%N = Some r) by (vm_compute; reflexivity).
  split; [exact Hr|]. split; [reflexivity|].
  exact (proj1 (match_not_before_timer (scenario1_open ++ scenario1_match))
           0%N r 3000%Z Hr eq_refl).
Defined.

(** ** A request from arrival to answer *)

Lemma step_post_valid s rider pickup dest :
  truthy rider = true → truthy pickup = true → truthy dest = true →
  step s (PostRideRequest rider pickup dest)
  = set_tasks
      (<[nextReq s := AwaitCreate rider
           (newRide (nextObjectId s) (now s) rider pickup dest)]> (tasks s))
      (set_journal (journal s ++ [(nextObjectId s, searching)])
         (set_nextObjectId (N.succ (nextObjectId s))
            (set_nextReq (S (nextReq s)) s))).
Proof.
  intros Hr Hp Hd. simpl. unfold requestRide. rewrite Hr, Hp, Hd. reflexivity.
Qed.

Lemma step_save_create s q rider doc o :
  tasks s !! q = Some (AwaitCreate rider doc) →
  step s (SaveSettles q o) = afterCreate q rider doc o s.
Proof. intros H. simpl. rewrite H. reflexivity. Qed.

Lemma step_save_match s q rider doc driver o :
  tasks s !! q = Some (AwaitMatchSave rider doc driver) →
  step s (SaveSettles q o) = afterMatchSave q rider doc driver o s.
Proof. intros H. simpl. rewrite H. reflexivity. Qed.

Lemma step_timer s q rider doc due r1 r2 :
  tasks s !! q = Some (AwaitTimer rider doc due) → (due <= now s)%Z →
  step s (TimerFires q r1 r2) = matchDriver q rider doc r1 r2 s.
Proof.
  intros H Hd. simpl. rewrite H. apply Z.leb_le in Hd. rewrite Hd. reflexivity.
Qed.

(** ** The arrival time never reaches 7 minutes *)

Section EtaBound.

Local Open Scope Z_scope.

Lemma rne_below a b hi :
  0 < b → 2 * a < (2 * hi - 1) * b → Number.rne a b <= hi - 1.
Proof.
  intros Hb Ha. unfold Number.rne.
  pose proof (Z.div_mod a b ltac:(lia)) as Hdm.
  pose proof (Z.mod_pos_bound a b Hb) as Hm.
  assert (Hk : a / b <= hi - 1) by nia.
  destruct (2 * (a mod b) <? b) eqn:E1; [exact Hk|].
  apply Z.ltb_ge in E1.
  assert (Hk2 : a / b + 1 <= hi - 1) by nia.
  repeat case_match; lia.
Qed.

Lemma binade_below n d k :
  0 < n → 0 < d → 0 <= k → n < 2 ^ k * d → Number.binade n d < k.
Proof.
  intros Hn Hd Hk Hlt.
  pose proof (ge_pow2_binade n d Hn Hd) as H.
  destruct (Z_lt_le_dec (Number.binade n d) k) as [|Hge]; [assumption|].
  exfalso. unfold Number.ge_pow2 in H.
  destruct (0 <=? Number.binade n d) eqn:E; [|apply Z.leb_gt in E; lia].
  apply Z.leb_le in H.
  assert (2 ^ k <= 2 ^ Number.binade n d) by (apply Z.pow_le_mono_r; lia).
  nia.
Qed.

(** A product with 5 of a number below 1 rounds to less than 5. *)
Lemma mul5_below_5 r :
  (0 <= r <= below_one)%Q → (Number.floor (Number.mul r 5) <= 4)%Z.
Proof.
  intros [H0 H1]. destruct r as [n d].
  unfold Qle in H0, H1; simpl in H0, H1.
  unfold Number.floor, Number.mul, Number.fl. simpl Qnum. simpl Qden.
  rewrite Pos.mul_1_r.
  destruct n as [|n|n];
    [change (0 * 5) with 0; vm_compute; discriminate| |lia].
  change (Z.pos n * 5) with (Z.pos (n * 5)).
  assert (Hn : 0 < Z.pos (n * 5)) by lia.
  assert (Hd : 0 < Z.pos d) by lia.
  assert (Hnd : Z.pos (n * 5) * 2 ^ 53 <= 5 * (2 ^ 53 - 1) * Z.pos d)
    by (rewrite Pos2Z.inj_mul; change (2 ^ 53) with 9007199254740992 in *;
        lia).
  pose proof (binade_below (Z.pos (n * 5)) (Z.pos d) 3 Hn Hd ltac:(lia)) as Hb.
  unfold Number.round_pos.
  set (s := Z.max (Number.binade (Z.pos (n * 5)) (Z.pos d)) (-1022) - 52).
  assert (Hs : s <= -50).
  { unfold s. assert (Number.binade (Z.pos (n * 5)) (Z.pos d) < 3).
    { apply Hb. change (2 ^ 3) with 8. change (2 ^ 53) with 9007199254740992 in *.
      lia. }
    lia. }
  destruct (0 <=? s) eqn:E; [apply Z.leb_le in E; lia|].
  unfold Number.scale. rewrite E.
  assert (Hp : 2 ^ 50 <= 2 ^ (- s)) by (apply Z.pow_le_mono_r; lia).
  set (P := 2 ^ (- s)) in *.
  assert (HP : 0 < P) by (change (2 ^ 50) with 1125899906842624 in Hp; lia).
  assert (Hm : Number.rne (Z.pos (n * 5) * P) (Z.pos d) <= 5 * P - 1).
  { apply rne_below; [exact Hd|].
    change (2 ^ 50) with 1125899906842624 in Hp.
    change (2 ^ 53) with 9007199254740992 in Hnd.
    nia. }
  unfold Qfloor. rewrite Z2Pos.id by exact HP.
  assert (Number.rne (Z.pos (n * 5) * P) (Z.pos d) / P < 5)
    by (apply Z.div_lt_upper_bound; lia).
  lia.
Qed.

End EtaBound.

(** X14.  Every binary64 number in [0, 1) is at most [1 - 2^-53].  For
    every such draw the arrival time is a whole number of minutes from 2
    to 6: 7, which the comment of line 290 names, is never produced,
    while 2 and 6 are. *)
Theorem eta_between_2_and_6 (r : Q) :
  (0 <= r <= below_one)%Q →
  (2 <= etaMinutes r <= 6)%Z
  ∧ etaText 0 = "2 minutes" ∧ etaText below_one = "6 minutes".
Proof.
  intros Hr. split; [|split; vm_compute; reflexivity].
  split.
  - apply etaMinutes_range. destruct Hr as [H0 H1]. split; [exact H0|].
    eapply Qle_lt_trans; [exact H1|]. reflexivity.
  - unfold etaMinutes. pose proof (mul5_below_5 r Hr). lia.
Qed.

Lemma eta_between_2_and_6_witness :
  (2 <= etaMinutes (999 # 1000) <= 6)%Z
  ∧ etaText 0 = "2 minutes" ∧ etaText below_one = "6 minutes".
Proof.
  apply (eta_between_2_and_6 (999 # 1000)).
  split; unfold Qle; simpl; lia.
Defined.

(** * Further properties of the front end *)

Section ScreenFacts.

Import Frontend Screen.

Lemma settled_start : settled start.
Proof. split; [reflexivity|]. split; discriminate. Qed.

Lemma settled_react u e : settled u → settled (react u e).
Proof.
  destruct u as [[p d ir df rd er] w]. unfold settled. simpl.
  intros (Hw & Hi & Hd).
  destruct e as [v|v| |t|]; simpl; unfold showsForm, showsDriver; simpl.
  - destruct df, ir; simpl; auto.
  - destruct df, ir; simpl; auto.
  - destruct df, ir; simpl; auto.
    unfold handleRequestRide. simpl.
    destruct (negb (truthyStr p) || negb (truthyStr d)); simpl.
    + auto.
    + subst w. split; [reflexivity|]. split; [reflexivity|discriminate].
  - destruct w as [|n]; simpl; [auto|].
    destruct ir; [|discriminate]. inversion Hw; subst n.
    split; [reflexivity|]. split; [discriminate|]. intros _. discriminate.
  - destruct df; simpl; [|auto]. destruct rd; simpl; [|auto].
    destruct ir; [specialize (Hi eq_refl); discriminate|].
    split; [exact Hw|]. split; discriminate.
Qed.

Lemma settled_session es : settled (session start es).
Proof.
  unfold session. induction es as [|e es IH] using rev_ind.
  - exact settled_start.
  - rewrite fold_left_app. simpl. apply settled_react, IH.
Qed.

End ScreenFacts.

(** X11.  After any sequence of typing, submitting, resolved delays and
    clicks on "Request New Ride", the screen shows exactly one of the
    form, the spinner and the driver panel; at most one call of
    [handleRequestRide] is waiting, and one is waiting exactly while the
    spinner is shown, so that no second request can be submitted
    meanwhile; and in no state that React may render while the delay
    resolves is the form on the screen. *)
Theorem screen_shows_one_panel (es : list Screen.Event) :
  let u := Screen.session Screen.start es in
  let s := Screen.app u in
  ((Screen.showsForm s = true ∧ Screen.showsSearching s = false
    ∧ Screen.showsDriver s = false)
   ∨ (Screen.showsForm s = false ∧ Screen.showsSearching s = true
      ∧ Screen.showsDriver s = false)
   ∨ (Screen.showsForm s = false ∧ Screen.showsSearching s = false
      ∧ Screen.showsDriver s = true))
  ∧ Screen.waiting u = (if Screen.showsSearching s then 1 else 0)
  ∧ (Screen.showsSearching s = true →
     ∀ now r, r ∈ Screen.afterDelay_renders now s →
              Screen.showsForm r = false).
Proof.
  intros u s. pose proof (settled_session es) as (Hw & Hi & Hd).
  fold u in Hw, Hi, Hd. fold s in Hw, Hi, Hd.
  unfold Screen.showsForm, Screen.showsSearching, Screen.showsDriver.
  split; [|split; [exact Hw|]].
  - destruct (Frontend.isRequesting s) eqn:Ei.
    + rewrite (Hi eq_refl). simpl. auto.
    + destruct (Frontend.driverFound s) eqn:Ed; simpl; [|auto].
      specialize (Hd eq_refl).
      destruct (Frontend.rideDetails s); [auto|contradiction].
  - intros Hs now r Hr. unfold Screen.afterDelay_renders in Hr.
    repeat (apply elem_of_cons in Hr as [->|Hr]); simpl.
    + rewrite Hs. apply andb_false_r.
    + reflexivity.
    + reflexivity.
    + by apply elem_of_nil in Hr.
Qed.

Lemma screen_shows_one_panel_witness :
  let es := [Screen.ChangePickup "A"; Screen.ChangeDestination "B";
             Screen.Submit; Screen.Submit] in
  let s := Screen.app (Screen.session Screen.start es) in
  Screen.showsSearching s = true
  ∧ ∀ now r, r ∈ Screen.afterDelay_renders now s →
             Screen.showsForm r = false.
Proof.
  intros es s.
  assert (H : Screen.showsSearching s = true) by reflexivity.
  split; [exact H|].
  exact (proj2 (proj2 (screen_shows_one_panel es)) H).
Defined.

(** X12.  From a state that shows the form with both fields filled in,
    submitting shows the spinner alone, keeps the two inputs and clears
    any error; when the delay resolves the driver panel alone is shown,
    with the mock ride data; and "Request New Ride" brings the component
    back to its initial state, with empty inputs. *)
Theorem request_then_new_ride_returns_to_start
    (s : Frontend.AppState) (now : Z) :
  Screen.showsForm s = true →
  Frontend.pickupLocation s ≠ EmptyString →
  Frontend.destination s ≠ EmptyString →
  let u1 := Screen.react (Screen.mkUi s 0) Screen.Submit in
  let u2 := Screen.react u1 (Screen.DelayResolves now) in
  let u3 := Screen.react u2 Screen.ClickNewRide in
  (Screen.showsSearching (Screen.app u1) = true
   ∧ Screen.showsForm (Screen.app u1) = false
   ∧ Screen.showsDriver (Screen.app u1) = false
   ∧ Screen.showsError (Screen.app u1) = false
   ∧ Frontend.pickupLocation (Screen.app u1) = Frontend.pickupLocation s
   ∧ Frontend.destination (Screen.app u1) = Frontend.destination s)
  ∧ (Screen.showsDriver (Screen.app u2) = true
     ∧ Screen.showsSearching (Screen.app u2) = false
     ∧ Screen.showsForm (Screen.app u2) = false
     ∧ Frontend.rideDetails (Screen.app u2)
       = Some (Frontend.mockRideData now))
  ∧ u3 = Screen.start.
Proof.
  destruct s as [p d ir df rd er].
  unfold Screen.showsForm. simpl. intros Hf Hp Hd.
  apply andb_true_iff in Hf as [Hdf Hir].
  apply negb_true_iff in Hdf, Hir. subst df ir.
  assert (Ep : truthyStr p = true).
  { unfold truthyStr. apply negb_true_iff, String.eqb_neq, Hp. }
  assert (Ed : truthyStr d = true).
  { unfold truthyStr. apply negb_true_iff, String.eqb_neq, Hd. }
  unfold Screen.react, Screen.showsForm, Frontend.handleRequestRide. simpl.
  rewrite Ep, Ed. simpl. repeat split.
Qed.

Lemma request_then_new_ride_returns_to_start_witness :
  let s := Frontend.mkApp "A" "B" false false None "Please enter both" in
  let u1 := Screen.react (Screen.mkUi s 0) Screen.Submit in
  let u2 := Screen.react u1 (Screen.DelayResolves 5) in
  let u3 := Screen.react u2 Screen.ClickNewRide in
  (Screen.showsSearching (Screen.app u1) = true
   ∧ Screen.showsForm (Screen.app u1) = false
   ∧ Screen.showsDriver (Screen.app u1) = false
   ∧ Screen.showsError (Screen.app u1) = false
   ∧ Frontend.pickupLocation (Screen.app u1) = Frontend.pickupLocation s
   ∧ Frontend.destination (Screen.app u1) = Frontend.destination s)
  ∧ (Screen.showsDriver (Screen.app u2) = true
     ∧ Screen.showsSearching (Screen.app u2) = false
     ∧ Screen.showsForm (Screen.app u2) = false
     ∧ Frontend.rideDetails (Screen.app u2)
       = Some (Frontend.mockRideData 5))
  ∧ u3 = Screen.start.
Proof.
  apply (request_then_new_ride_returns_to_start
           (Frontend.mkApp "A" "B" false false None "Please enter both") 5);
    [reflexivity | discriminate | discriminate].
Defined.

(** * Login *)

(** X13.  Once the query has resolved, the login is accepted exactly
    when a user was found and the password given is a string equal to the
    stored one (a number or any other value never matches); it is then
    answered 200 with the identifier and role of that user.  Every other
    login gets the same 401 "Invalid credentials", whether the user is
    unknown or the password is wrong. *)
Theorem login_accepts_only_the_stored_password
    (user : option User) (given : JsVal) :
  ((Accounts.login (Accounts.FindOneResolved user) given).1 = 200%Z
   ↔ ∃ u, user = Some u ∧ given = VStr (Backend.password u)
          ∧ Accounts.login (Accounts.FindOneResolved user) given
            = (200%Z, Accounts.LSuccess "Login successful" (user_id u)
                        (Backend.role u)))
  ∧ ((Accounts.login (Accounts.FindOneResolved user) given).1 ≠ 200%Z →
     Accounts.login (Accounts.FindOneResolved user) given
     = (401%Z, Accounts.LMessage "Invalid credentials")).
Proof.
  unfold Accounts.login, Accounts.invalidCredentials,
    Accounts.strictEqualsString.
  split; [split|].
  - destruct user as [u|]; [|discriminate].
    destruct given as [| | | |x|]; try discriminate.
    destruct (Backend.password u =? x)%string eqn:E; [|discriminate].
    apply String.eqb_eq in E. subst x. intros _. exists u. auto.
  - intros (u & -> & -> & _). rewrite String.eqb_refl. reflexivity.
  - destruct user as [u|]; [|reflexivity].
    destruct given as [| | | |x|]; try reflexivity.
    destruct (Backend.password u =? x)%string; [|reflexivity].
    simpl. intros H. contradiction.
Qed.

Lemma login_accepts_only_the_stored_password_witness :
  let u := mkUser 7 "ann" "pw" "ann@example.org" "rider" 0 in
  (Accounts.login (Accounts.FindOneResolved (Some u)) (VStr "pw")).1 = 200%Z
  ∧ Accounts.login (Accounts.FindOneResolved (Some u)) (VNum 7)
    = (401%Z, Accounts.LMessage "Invalid credentials").
Proof.
  intros u. split.
  - apply (proj2 (proj1 (login_accepts_only_the_stored_password
                           (Some u) (VStr "pw")))).
    exists u. split; [reflexivity|]. split; reflexivity.
  - apply (proj2 (login_accepts_only_the_stored_password (Some u) (VNum 7))).
    discriminate.
Defined.

(** * Requests among other requests *)

Lemma reachable_run s tr : reachable s → reachable (run s tr).
Proof. intros [tr0 ->]. exists (tr0 ++ tr). by rewrite run_app. Qed.

Lemma reachable_step s i : reachable s → reachable (step s i).
Proof. intros H. apply (reachable_run s [i] H). Qed.

Lemma reachable_invariants s :
  reachable s → Inv s ∧ Inv_docs s ∧ Inv_io s ∧ keys_ok s.
Proof.
  intros [tr ->].
  split; [apply inv_run|]. split; [apply docs_run|].
  split; [apply io_run | apply keys_run].
Qed.

(** An input that resumes another request leaves the handler of [q]. *)
Lemma untouched_step s i q :
  q < nextReq s → addressed i ≠ Some q →
  tasks (step s i) !! q = tasks s !! q ∧ q < nextReq (step s i).
Proof.
  intros Hlt Hne.
  step_cases s i; try (split; [reflexivity|simpl; lia]);
    try (split; [reflexivity|exact Hlt]); simpl in Hne.
  - split; [apply lookup_insert_ne; lia | lia].
  - split; [apply lookup_insert_ne; congruence | exact Hlt].
  - split; [apply lookup_delete_ne; congruence | exact Hlt].
  - split; [apply lookup_delete_ne; congruence | exact Hlt].
  - split; [apply lookup_delete_ne; congruence | exact Hlt].
  - unfold matchDriver. simpl.
    split; [apply lookup_insert_ne; congruence | exact Hlt].
Qed.

Lemma untouched_run tr : ∀ s q,
  q < nextReq s → others q tr →
  tasks (run s tr) !! q = tasks s !! q ∧ q < nextReq (run s tr).
Proof.
  induction tr as [|i tr IH]; intros s q Hlt Ho; [by split|].
  rewrite run_cons. apply Forall_cons in Ho as [Hi Ho].
  destruct (untouched_step s i q Hlt Hi) as [E Hlt'].
  destruct (IH (step s i) q Hlt' Ho) as [E' Hlt''].
  split; [congruence | exact Hlt''].
Qed.

(** X10.  From any point of any run, take a request with three
    non-empty fields whose first save resolves, whose timer fires when it
    is due and whose second save resolves, with any inputs in between
    that resume other requests or none (other requests, joins,
    disconnections, ticks, queries).  It ends with the ride stored under
    the identifier it was created with, matched with the driver
    identifier, the draws and the time of the firing; with one answer,
    the 200 that carries that ride; and with one event for every socket
    that is in the rider's room when the second save resolves. *)
Theorem request_runs_to_completion
    (tr : list Input) (rider pickup dest : JsVal)
    (tr1 tr2 tr3 : list Input) (r1 r2 : Q) :
  truthy rider = true → truthy pickup = true → truthy dest = true →
  let s0 := run init tr in
  let q := nextReq s0 in
  let id := nextObjectId s0 in
  let s1 := run (step s0 (PostRideRequest rider pickup dest)) tr1 in
  let s2 := run (step s1 (SaveSettles q Saved)) tr2 in
  let s3 := run (step s2 (TimerFires q r1 r2)) tr3 in
  let s4 := step s3 (SaveSettles q Saved) in
  others q tr1 → others q tr2 → others q tr3 →
  (now s1 + 3000 <= now s2)%Z →
  let driver := mockDriver (nextObjectId s2) in
  let doc := applyMatch (newRide id (now s0) rider pickup dest)
               (nextObjectId s2) (fareText r1) (etaText r2) (now s2) in
  rides s4 !! id = Some doc
  ∧ answers q s4 = [mkResponse 200 (JRideAnswer (rideAnswer doc driver))]
  ∧ events q s4
    = (λ sid, (q, sid, rideUpdate doc driver)) <$> members rider (rooms s3)
  ∧ tasks s4 !! q = None.
Proof.
  intros Hr Hp Hd s0 q id s1 s2 s3 s4 Ho1 Ho2 Ho3 Hdue driver doc.
  set (doc0 := newRide id (now s0) rider pickup dest).
  assert (R0 : reachable s0) by (by exists tr).
  (* the request arrives *)
  set (a0 := step s0 (PostRideRequest rider pickup dest)) in *.
  assert (T0 : tasks a0 !! q = Some (AwaitCreate rider doc0) ∧ q < nextReq a0).
  { unfold a0. rewrite (step_post_valid s0 _ _ _ Hr Hp Hd). simpl.
    split; [apply lookup_insert_eq | unfold q; lia]. }
  destruct T0 as [T0 L0].
  destruct (untouched_run tr1 a0 q L0 Ho1) as [T1 L1]. fold s1 in T1, L1.
  rewrite T0 in T1.
  (* the first save resolves *)
  set (a1 := step s1 (SaveSettles q Saved)) in *.
  assert (E1 : a1 = afterCreate q rider doc0 Saved s1)
    by (apply step_save_create, T1).
  assert (T1' : tasks a1 !! q = Some (AwaitTimer rider doc0 (now s1 + 3000))
                ∧ q < nextReq a1).
  { rewrite E1. simpl. split; [apply lookup_insert_eq | exact L1]. }
  destruct T1' as [T1' L1'].
  destruct (untouched_run tr2 a1 q L1' Ho2) as [T2 L2]. fold s2 in T2, L2.
  rewrite T1' in T2.
  (* the timer fires *)
  set (a2 := step s2 (TimerFires q r1 r2)) in *.
  assert (E2 : a2 = matchDriver q rider doc0 r1 r2 s2)
    by (apply (step_timer s2 q rider doc0 _ r1 r2 T2 Hdue)).
  assert (T2' : tasks a2 !! q = Some (AwaitMatchSave rider doc driver)
                ∧ q < nextReq a2).
  { rewrite E2. unfold matchDriver. simpl.
    split; [apply lookup_insert_eq | exact L2]. }
  destruct T2' as [T2' L2'].
  destruct (untouched_run tr3 a2 q L2' Ho3) as [T3 L3]. fold s3 in T3, L3.
  rewrite T2' in T3.
  (* the second save resolves *)
  assert (R3 : reachable s3).
  { apply reachable_run, reachable_step, reachable_run, reachable_step,
      reachable_run, reachable_step, R0. }
  destruct (reachable_invariants s3 R3) as (_ & _ & HIO & _).
  destruct (io_pending s3 HIO _ _ T3) as [Ha He].
  assert (E4 : s4 = afterMatchSave q rider doc driver Saved s3)
    by (apply step_save_match, T3).
  rewrite E4. split; [|split; [|split]].
  - simpl. apply lookup_insert_eq.
  - unfold afterMatchSave. rewrite answers_snoc_eq.
    unfold answers in Ha |- *. simpl. rewrite Ha. reflexivity.
  - rewrite (events_of_emit s3 _ q q (rideUpdate doc driver)
               (members rider (rooms s3))); [|reflexivity].
    rewrite He, decide_True by reflexivity. reflexivity.
  - simpl. apply lookup_delete_eq.
Qed.

Lemma request_runs_to_completion_witness :
  let tr := [Connect "a"; JoinRideRoom "a" rider507] in
  let tr1 := [PostRideRequest (VStr "507f191e810c19729de860ea") (VStr "C")
                (VStr "D"); Tick 100] in
  let tr2 := [Tick 3000; Connect "b"; JoinRideRoom "b" rider507] in
  let tr3 := [SaveSettles 1 Saved; Disconnect "a"] in
  let s0 := run init tr in
  let q := nextReq s0 in
  let id := nextObjectId s0 in
  let s1 := run (step s0 (PostRideRequest rider507 (VStr "A") (VStr "B")))
              tr1 in
  let s2 := run (step s1 (SaveSettles q Saved)) tr2 in
  let s3 := run (step s2 (TimerFires q (1 # 3) (1 # 2))) tr3 in
  let s4 := step s3 (SaveSettles q Saved) in
  (others q tr1 ∧ others q tr2 ∧ others q tr3
   ∧ (now s1 + 3000 <= now s2)%Z)
  ∧ members rider507 (rooms s3) = ["b"]
  ∧ let driver := mockDriver (nextObjectId s2) in
    let doc := applyMatch (newRide id (now s0) rider507 (VStr "A") (VStr "B"))
                 (nextObjectId s2) (fareText (1 # 3)) (etaText (1 # 2))
                 (now s2) in
    rides s4 !! id = Some doc
    ∧ answers q s4 = [mkResponse 200 (JRideAnswer (rideAnswer doc driver))]
    ∧ events q s4
      = (λ sid, (q, sid, rideUpdate doc driver))
          <$> members rider507 (rooms s3)
    ∧ tasks s4 !! q = None.
Proof.
  intros tr tr1 tr2 tr3 s0 q id s1 s2 s3 s4.
  assert (H1 : others q tr1)
    by (repeat constructor; vm_compute; discriminate).
  assert (H2 : others q tr2)
    by (repeat constructor; vm_compute; discriminate).
  assert (H3 : others q tr3)
    by (repeat constructor; vm_compute; discriminate).
  assert (H4 : (now s1 + 3000 <= now s2)%Z) by (vm_compute; discriminate).
  split; [auto|]. split; [vm_compute; reflexivity|].
  exact (request_runs_to_completion tr rider507 (VStr "A") (VStr "B")
           tr1 tr2 tr3 (1 # 3) (1 # 2) eq_refl eq_refl eq_refl H1 H2 H3 H4).
Defined.

(** * The status query, from the parameter of the route *)




(** * The statuses of a stored ride *)







(** * The match is applied once *)






